(** * MicroPhenom-AI: the recording-to-analysis pipeline

    A shallow embedding of [services/geminiService.ts] (blobToBase64,
    getWelcomeMessage, analyzeTextTranscript, analyzeInterview) and of the
    recording handlers of [components/InterviewRecorder.tsx]
    (startRecording, stopRecording and the handlers they install), together
    with the browser facilities they call: FileReader.readAsDataURL,
    JSON.parse, MediaRecorder, setInterval, getUserMedia. *)

From Stdlib Require Import String Ascii Strings.Byte NArith Arith Bool Lia List.
From Stdlib Require Decimal DecimalString DecimalNat.
Import ListNotations.

Local Open Scope string_scope.
Local Open Scope list_scope.

(** * Part I: the programs and the platform they run on *)

(** ** Base64 (RFC 4648, standard alphabet, padded)

    This is the encoding [FileReader.readAsDataURL] puts after the
    [;base64,] marker of the data URL it produces. *)

Module Base64.

Local Open Scope N_scope.

Definition alphabet : list ascii :=
  list_ascii_of_string
    "ABCDEFGHIJKLMNOPQRSTUVWXYZabcdefghijklmnopqrstuvwxyz0123456789+/".

Definition pad : ascii := "="%char.

Definition char_of_sextet (n : N) : ascii :=
  nth (N.to_nat n) alphabet pad.

Definition sextet_of_char (c : ascii) : option N :=
  let k := N_of_ascii c in
  if (65 <=? k) && (k <=? 90) then Some (k - 65)
  else if (97 <=? k) && (k <=? 122) then Some (k - 71)
  else if (48 <=? k) && (k <=? 57) then Some (k + 4)
  else if k =? 43 then Some 62
  else if k =? 47 then Some 63
  else None.

(** Three octets make four sextets. *)
Definition s1 (a : N) : N := a / 4.
Definition s2 (a b : N) : N := (a mod 4) * 16 + b / 16.
Definition s3 (b c : N) : N := (b mod 16) * 4 + c / 64.
Definition s4 (c : N) : N := c mod 64.

Fixpoint encode (bs : list byte) : list ascii :=
  match bs with
  | [] => []
  | [a] =>
      let a := Byte.to_N a in
      [char_of_sextet (s1 a); char_of_sextet (s2 a 0); pad; pad]
  | [a; b] =>
      let a := Byte.to_N a in
      let b := Byte.to_N b in
      [char_of_sextet (s1 a); char_of_sextet (s2 a b);
       char_of_sextet (s3 b 0); pad]
  | a :: b :: c :: rest =>
      let a := Byte.to_N a in
      let b := Byte.to_N b in
      let c := Byte.to_N c in
      char_of_sextet (s1 a) :: char_of_sextet (s2 a b)
        :: char_of_sextet (s3 b c) :: char_of_sextet (s4 c) :: encode rest
  end.

(** Four sextets back to octets. *)
Definition o1 (x y : N) : N := x * 4 + y / 16.
Definition o2 (y z : N) : N := (y mod 16) * 16 + z / 4.
Definition o3 (z w : N) : N := (z mod 4) * 64 + w.

Definition is_pad (c : ascii) : bool := Ascii.eqb c pad.

Definition opt_bind {A B} (o : option A) (f : A -> option B) : option B :=
  match o with Some a => f a | None => None end.

Notation "x <- o ;; k" := (opt_bind o (fun x => k))
  (at level 61, o at next level, right associativity).

Definition decode_quad (c1 c2 c3 c4 : ascii) : option (list byte) :=
  x <- sextet_of_char c1 ;;
  y <- sextet_of_char c2 ;;
  if is_pad c3 then
    if is_pad c4 then
      a <- Byte.of_N (o1 x y) ;; Some [a]
    else None
  else
    z <- sextet_of_char c3 ;;
    if is_pad c4 then
      a <- Byte.of_N (o1 x y) ;;
      b <- Byte.of_N (o2 y z) ;; Some [a; b]
    else
      w <- sextet_of_char c4 ;;
      a <- Byte.of_N (o1 x y) ;;
      b <- Byte.of_N (o2 y z) ;;
      c <- Byte.of_N (o3 z w) ;; Some [a; b; c].

(** A padded quad may only be the last one. *)
Fixpoint decode (cs : list ascii) : option (list byte) :=
  match cs with
  | [] => Some []
  | c1 :: c2 :: c3 :: c4 :: rest =>
      front <- decode_quad c1 c2 c3 c4 ;;
      match rest with
      | [] => Some front
      | _ :: _ =>
          if is_pad c4 then None
          else tail <- decode rest ;; Some (front ++ tail)
      end
  | _ => None
  end.

(** Table checks used for the alphabet. *)
Definition sextet_ok (k : nat) : bool :=
  let n := N.of_nat k in
  match sextet_of_char (char_of_sextet n) with
  | Some m => (m =? n) && negb (is_pad (char_of_sextet n))
  | None => false
  end.

Definition comma_free (c : ascii) : bool := negb (Ascii.eqb c ",").

End Base64.

(** ** JSON values and [JSON.parse]

    [JSON.parse] is a facility of the JavaScript runtime.  It is modelled
    after the JSON grammar (ECMA-404): insignificant white space, the three
    literals, numbers, strings with escapes, arrays and objects; anything
    else is a syntax error.  A number is kept as its literal; a string is
    kept as a byte string, a [\uXXXX] escape contributing the UTF-8 bytes of
    its code unit. *)

Module Json.
#[local] Set Warnings "-register-all".

Inductive json : Type :=
| JNull
| JBool (b : bool)
| JNumber (literal : string)
| JString (s : string)
| JArray (items : list json)
| JObject (members : list (string * json)).

(** Defining a property of an object under construction: a repeated key
    overwrites the earlier value and keeps its place. *)
Fixpoint obj_set (k : string) (v : json) (o : list (string * json))
  : list (string * json) :=
  match o with
  | [] => [(k, v)]
  | (k', v') :: o' =>
      if String.eqb k k' then (k, v) :: o' else (k', v') :: obj_set k v o'
  end.

Fixpoint obj_get (k : string) (o : list (string * json)) : option json :=
  match o with
  | [] => None
  | (k', v) :: o' => if String.eqb k k' then Some v else obj_get k o'
  end.

(** Property read [v.k] on a parsed value; [None] is JavaScript's
    [undefined]. *)
Definition get (v : json) (k : string) : option json :=
  match v with
  | JObject o => obj_get k o
  | _ => None
  end.

Inductive res (A : Type) : Type :=
| Ok (a : A)
| SyntaxErr
| OutOfFuel.
Arguments Ok {A} a.
Arguments SyntaxErr {A}.
Arguments OutOfFuel {A}.

Definition is_ws (c : ascii) : bool :=
  Ascii.eqb c " " || Ascii.eqb c "009" || Ascii.eqb c "010" || Ascii.eqb c "013".

Fixpoint skip_ws (s : list ascii) : list ascii :=
  match s with
  | c :: r => if is_ws c then skip_ws r else s
  | [] => []
  end.

Definition is_digit (c : ascii) : bool :=
  let k := N_of_ascii c in (48 <=? k)%N && (k <=? 57)%N.

Fixpoint span_digits (s : list ascii) : list ascii * list ascii :=
  match s with
  | c :: r =>
      if is_digit c then let (ds, r') := span_digits r in (c :: ds, r')
      else ([], s)
  | [] => ([], [])
  end.

Definition hex_value (c : ascii) : option N :=
  let k := N_of_ascii c in
  if (48 <=? k)%N && (k <=? 57)%N then Some (k - 48)%N
  else if (65 <=? k)%N && (k <=? 70)%N then Some (k - 55)%N
  else if (97 <=? k)%N && (k <=? 102)%N then Some (k - 87)%N
  else None.

Definition utf8 (n : N) : list ascii :=
  (if n <? 128 then [ascii_of_N n]
   else if n <? 2048 then
     [ascii_of_N (192 + n / 64); ascii_of_N (128 + n mod 64)]
   else
     [ascii_of_N (224 + n / 4096); ascii_of_N (128 + (n / 64) mod 64);
      ascii_of_N (128 + n mod 64)])%N.

Definition escape (c : ascii) : option ascii :=
  if Ascii.eqb c "034" then Some "034"%char
  else if Ascii.eqb c "\" then Some "\"%char
  else if Ascii.eqb c "/" then Some "/"%char
  else if Ascii.eqb c "b" then Some "008"%char
  else if Ascii.eqb c "f" then Some "012"%char
  else if Ascii.eqb c "n" then Some "010"%char
  else if Ascii.eqb c "r" then Some "013"%char
  else if Ascii.eqb c "t" then Some "009"%char
  else None.

(** The characters of a string after its opening quote, up to and including
    the closing quote. *)
Fixpoint parse_chars (s : list ascii) : option (list ascii * list ascii) :=
  match s with
  | [] => None
  | c :: r =>
      if Ascii.eqb c "034" then Some ([], r)
      else if Ascii.eqb c "\" then
        match r with
        | [] => None
        | e :: r1 =>
            if Ascii.eqb e "u" then
              match r1 with
              | h1 :: h2 :: h3 :: h4 :: r2 =>
                  match hex_value h1, hex_value h2, hex_value h3, hex_value h4 with
                  | Some a, Some b, Some c, Some d =>
                      match parse_chars r2 with
                      | Some (cs, rest) =>
                          Some (utf8 (a * 4096 + b * 256 + c * 16 + d)%N ++ cs, rest)
                      | None => None
                      end
                  | _, _, _, _ => None
                  end
              | _ => None
              end
            else
              match escape e with
              | Some x =>
                  match parse_chars r1 with
                  | Some (cs, rest) => Some (x :: cs, rest)
                  | None => None
                  end
              | None => None
              end
        end
      else if (N_of_ascii c <? 32)%N then None
      else
        match parse_chars r with
        | Some (cs, rest) => Some (c :: cs, rest)
        | None => None
        end
  end.

Definition parse_int (s : list ascii) : option (list ascii * list ascii) :=
  match s with
  | c :: r =>
      if Ascii.eqb c "0" then Some ([c], r)
      else if is_digit c then
        let (ds, r') := span_digits r in Some (c :: ds, r')
      else None
  | [] => None
  end.

Definition parse_frac (s : list ascii) : option (list ascii * list ascii) :=
  match s with
  | c :: r =>
      if Ascii.eqb c "." then
        match span_digits r with
        | ([], _) => None
        | (ds, r') => Some (c :: ds, r')
        end
      else Some ([], s)
  | [] => Some ([], s)
  end.

Definition parse_exp (s : list ascii) : option (list ascii * list ascii) :=
  match s with
  | c :: r =>
      if Ascii.eqb c "e" || Ascii.eqb c "E" then
        let (sign, r1) :=
          match r with
          | x :: r0 =>
              if Ascii.eqb x "+" || Ascii.eqb x "-" then ([x], r0) else ([], r)
          | [] => ([], r)
          end in
        match span_digits r1 with
        | ([], _) => None
        | (ds, r') => Some (c :: sign ++ ds, r')
        end
      else Some ([], s)
  | [] => Some ([], s)
  end.

Definition parse_number (s : list ascii) : option (list ascii * list ascii) :=
  let (sign, s0) :=
    match s with
    | c :: r => if Ascii.eqb c "-" then ([c], r) else ([], s)
    | [] => ([], s)
    end in
  match parse_int s0 with
  | Some (i, s1) =>
      match parse_frac s1 with
      | Some (f, s2) =>
          match parse_exp s2 with
          | Some (e, s3) => Some (sign ++ i ++ f ++ e, s3)
          | None => None
          end
      | None => None
      end
  | None => None
  end.

Fixpoint strip_prefix (p s : list ascii) : option (list ascii) :=
  match p, s with
  | [], _ => Some s
  | a :: p', b :: s' => if Ascii.eqb a b then strip_prefix p' s' else None
  | _ :: _, [] => None
  end.

Definition lit (w : string) (v : json) (s : list ascii)
  : res (json * list ascii) :=
  match strip_prefix (list_ascii_of_string w) s with
  | Some r => Ok (v, r)
  | None => SyntaxErr
  end.

Fixpoint parse_value (fuel : nat) (s : list ascii) {struct fuel}
  : res (json * list ascii) :=
  match fuel with
  | O => OutOfFuel
  | S fuel' =>
      match skip_ws s with
      | [] => SyntaxErr
      | c :: r =>
          if Ascii.eqb c "[" then
            match skip_ws r with
            | x :: r' =>
                if Ascii.eqb x "]" then Ok (JArray [], r')
                else parse_elements fuel' r []
            | [] => SyntaxErr
            end
          else if Ascii.eqb c "{" then
            match skip_ws r with
            | x :: r' =>
                if Ascii.eqb x "}" then Ok (JObject [], r')
                else parse_members fuel' r []
            | [] => SyntaxErr
            end
          else if Ascii.eqb c "034" then
            match parse_chars r with
            | Some (cs, r') => Ok (JString (string_of_list_ascii cs), r')
            | None => SyntaxErr
            end
          else if Ascii.eqb c "t" then lit "true" (JBool true) (c :: r)
          else if Ascii.eqb c "f" then lit "false" (JBool false) (c :: r)
          else if Ascii.eqb c "n" then lit "null" JNull (c :: r)
          else
            match parse_number (c :: r) with
            | Some (n, r') => Ok (JNumber (string_of_list_ascii n), r')
            | None => SyntaxErr
            end
      end
  end

with parse_elements (fuel : nat) (s : list ascii) (acc : list json)
  {struct fuel} : res (json * list ascii) :=
  match fuel with
  | O => OutOfFuel
  | S fuel' =>
      match parse_value fuel' s with
      | Ok (v, r) =>
          match skip_ws r with
          | x :: r' =>
              if Ascii.eqb x "," then parse_elements fuel' r' (v :: acc)
              else if Ascii.eqb x "]" then Ok (JArray (rev (v :: acc)), r')
              else SyntaxErr
          | [] => SyntaxErr
          end
      | SyntaxErr => SyntaxErr
      | OutOfFuel => OutOfFuel
      end
  end

with parse_members (fuel : nat) (s : list ascii) (acc : list (string * json))
  {struct fuel} : res (json * list ascii) :=
  match fuel with
  | O => OutOfFuel
  | S fuel' =>
      match skip_ws s with
      | q :: r0 =>
          if Ascii.eqb q "034" then
            match parse_chars r0 with
            | Some (k, r1) =>
                match skip_ws r1 with
                | colon :: r2 =>
                    if Ascii.eqb colon ":" then
                      match parse_value fuel' r2 with
                      | Ok (v, r3) =>
                          let acc' := obj_set (string_of_list_ascii k) v acc in
                          match skip_ws r3 with
                          | x :: r4 =>
                              if Ascii.eqb x "," then parse_members fuel' r4 acc'
                              else if Ascii.eqb x "}" then Ok (JObject acc', r4)
                              else SyntaxErr
                          | [] => SyntaxErr
                          end
                      | SyntaxErr => SyntaxErr
                      | OutOfFuel => OutOfFuel
                      end
                    else SyntaxErr
                | [] => SyntaxErr
                end
            | None => SyntaxErr
            end
          else SyntaxErr
      | [] => SyntaxErr
      end
  end.

(** Fuel that always suffices: every nested call is made on a strictly
    shorter remainder (see [parse_value_fuel]). *)
Definition enough (s : list ascii) : nat := 2 * length s + 1.

Definition parse_text (s : list ascii) : res json :=
  match parse_value (enough s) s with
  | Ok (v, r) =>
      match skip_ws r with
      | [] => Ok v
      | _ :: _ => SyntaxErr
      end
  | SyntaxErr => SyntaxErr
  | OutOfFuel => OutOfFuel
  end.

(** [JSON.parse(text)]: the value, or [None] for the [SyntaxError] it
    throws. *)
Definition JSON_parse (text : string) : option json :=
  match parse_text (list_ascii_of_string text) with
  | Ok v => Some v
  | _ => None
  end.

(** A parse that succeeds leaves less input than it was given. *)
Definition shrinks (p : res (json * list ascii)) (s : list ascii) : Prop :=
  forall v r, p = Ok (v, r) -> length r < length s.

End Json.

(** ** Values of the JavaScript runtime shared by both files *)

Module Js.
(** What a [throw] or a rejected promise carries. *)
Inductive exn : Type :=
| Error (message : string)        (* [new Error(message)] *)
| SyntaxError                     (* thrown by [JSON.parse] *)
| DOMException (name : string)    (* thrown or rejected by a browser API *)
| ProgressEvent (type : string).  (* the event a [FileReader] hands to [onerror] *)

Inductive outcome (A : Type) : Type :=
| Fulfilled (a : A)
| Rejected (e : exn).
Arguments Fulfilled {A} a.
Arguments Rejected {A} e.

(** How a call that does not wait ends, a constructor for one. *)
Inductive completion (A : Type) : Type :=
| Returns (a : A)
| Throws (e : exn).
Arguments Returns {A} a.
Arguments Throws {A} e.

(** Truthiness of a [string | undefined]: defined and not empty. *)
Definition truthy (s : option string) : bool :=
  match s with
  | Some (String _ _) => true
  | Some EmptyString => false
  | None => false
  end.

(** [s || d]. *)
Definition or_else (s : option string) (d : string) : string :=
  match s with
  | Some (String c r) => String c r
  | Some EmptyString => d
  | None => d
  end.

Definition printable (c : ascii) : bool :=
  let k := N_of_ascii c in (32 <=? k)%N && (k <=? 126)%N.

Definition lower (c : ascii) : ascii :=
  let k := N_of_ascii c in
  if (65 <=? k)%N && (k <=? 90)%N then ascii_of_N (k + 32) else c.

Fixpoint string_forallb (p : ascii -> bool) (s : string) : bool :=
  match s with
  | EmptyString => true
  | String c r => p c && string_forallb p r
  end.

Fixpoint string_map (f : ascii -> ascii) (s : string) : string :=
  match s with
  | EmptyString => EmptyString
  | String c r => String (f c) (string_map f r)
  end.

Record Blob : Type := { blob_bytes : list byte; blob_type : string }.

Definition size (b : Blob) : nat := length (blob_bytes b).

(** [new Blob(parts, { type })]: the parts' bytes in order; the type is
    lower-cased, or dropped when it has a character outside U+0020..U+007E. *)
Definition new_Blob (parts : list Blob) (type : string) : Blob :=
  {| blob_bytes := concat (map blob_bytes parts);
     blob_type := if string_forallb printable type
                  then string_map lower type else EmptyString |}.

(** [s.split(sep)] for a one-character separator. *)
Fixpoint split (sep : ascii) (s : string) : list string :=
  match s with
  | EmptyString => [EmptyString]
  | String c r =>
      if Ascii.eqb c sep then EmptyString :: split sep r
      else
        match split sep r with
        | h :: t => String c h :: t
        | [] => [String c EmptyString]
        end
  end.

(** The result of [FileReader.readAsDataURL(blob)]: a data URL (RFC 2397)
    with the blob's type, when it has one, and its bytes in Base64. *)
Definition data_url (b : Blob) : string :=
  ("data:" ++ blob_type b ++ ";base64,"
     ++ string_of_list_ascii (Base64.encode (blob_bytes b)))%string.

(** How a read started by [readAsDataURL] ends.  A blob that can be read
    gives [loadend] with the data URL in [reader.result]; one that cannot
    gives [error] first, its handler called with the event, and [loadend]
    after it with [reader.result] null. *)
Inductive read_end : Type :=
| LoadEnd (result : string)
| ReadError (event : exn).

Definition readAsDataURL (readable : Blob -> bool) (b : Blob) : read_end :=
  if readable b then LoadEnd (data_url b)
  else ReadError (ProgressEvent "error").

(** [s] between double quotes. *)
Definition quoted (s : string) : string :=
  String "034" (s ++ String "034" EmptyString)%string.

(** [atob] on the transmitted string, as the receiver would decode it. *)
Definition base64_decode (s : string) : option (list byte) :=
  Base64.decode (list_ascii_of_string s).

(** No [","] in [s]. *)
Definition no_comma (s : string) : bool :=
  string_forallb (fun c => negb (Ascii.eqb c ",")) s.

End Js.

(** ** services/geminiService.ts

    Each function builds its client first, [new GoogleGenAI] with the key of
    the environment, outside any [try].  The SDK is not part of the
    repository: what its constructor does with a key, and what the client it
    returns answers, are parameters. *)

Module GeminiService.
Import Js Json.

(** The three template literals bound to [prompt]; the text-analysis one
    embeds its argument after [TRANSCRIPT TEXT:]. *)
Inductive Prompt : Type :=
| WelcomePrompt
| TextAnalysisPrompt (text : string)
| AudioAnalysisPrompt.

Record InlineData : Type := { mimeType : string; data : option string }.

Inductive Part : Type :=
| InlinePart (inlineData : InlineData)
| TextPart (text : Prompt).

Inductive Contents : Type :=
| ContentsPrompt (p : Prompt)
| ContentsParts (parts : list Part).

Record Config : Type := { responseMimeType : string }.

Record GenerateContentParameters : Type := {
  model : string;
  contents : Contents;
  config : option Config
}.

Record GenerateContentResponse : Type := { text : option string }.

(** The backend is a black box: any function from the request to the way
    the call settles. *)
Definition Backend : Type :=
  GenerateContentParameters -> outcome GenerateContentResponse.

Inductive io : Type :=
| GenerateContent (request : GenerateContentParameters)
| LoggedError (label : string) (error : exn).

(** An async function: how its promise settles, and what it did on the
    way. *)
Definition Promise (A : Type) : Type := (outcome A * list io)%type.

Definition resolve {A} (a : A) : Promise A := (Fulfilled a, []).

Definition reject {A} (e : exn) : Promise A := (Rejected e, []).

Definition and_then {A B} (m : Promise A) (k : A -> Promise B) : Promise B :=
  match m with
  | (Fulfilled a, l) => let (o, l') := k a in (o, l ++ l')
  | (Rejected e, l) => (Rejected e, l)
  end.

Definition try_await {A} (body : Promise A) (handler : exn -> Promise A)
  : Promise A :=
  match body with
  | (Fulfilled a, l) => (Fulfilled a, l)
  | (Rejected e, l) => let (o, l') := handler e in (o, l ++ l')
  end.

Definition tell (e : io) : Promise unit := (Fulfilled tt, [e]).

Notation "x <- m ;; k" := (and_then m (fun x => k))
  (at level 61, m at next level, right associativity).
Notation "m ;; k" := (and_then m (fun _ => k))
  (at level 61, right associativity).

(** What the functions find around them: [process.env.API_KEY], the
    constructor of the SDK, and whether the [FileReader] of the browser can
    read a given blob. *)
Record Runtime : Type := {
  API_KEY : option string;
  GoogleGenAI : option string -> completion Backend;
  readable : Blob -> bool
}.

(** [new GoogleGenAI({ apiKey: process.env.API_KEY })]. *)
Definition client (rt : Runtime) : completion Backend :=
  GoogleGenAI rt (API_KEY rt).

(** The same inside an async function: a throw rejects its promise. *)
Definition new_GoogleGenAI (rt : Runtime) : Promise Backend :=
  match client rt with
  | Returns ai => resolve ai
  | Throws e => reject e
  end.

Definition generateContent (ai : Backend) (request : GenerateContentParameters)
  : Promise GenerateContentResponse :=
  tell (GenerateContent request) ;; (ai request, []).

Definition log_error (label : string) (error : exn) : Promise unit :=
  tell (LoggedError label error).

Definition modelId : string := "gemini-2.5-flash".

Definition fallbackWelcome : string :=
  "Welcome. Let's explore the micro-dimensions of your experience. Please start by identifying a specific moment you wish to investigate.".

(** [JSON.parse(text) as AnalysisResult]: the cast is erased at run time. *)
Definition JSON_parse_or_throw (t : string) : Promise json :=
  match JSON_parse t with
  | Some v => resolve v
  | None => reject SyntaxError
  end.

(** [onloadend] resolves with what follows the first comma; [onerror] is
    [reject] itself.  The [loadend] that follows an [error] finds the promise
    settled: its handler fails on the null result and changes nothing. *)
Definition blobToBase64 (rt : Runtime) (blob : Blob) : Promise (option string) :=
  match readAsDataURL (readable rt) blob with
  | LoadEnd base64String => resolve (nth_error (split "," base64String) 1)
  | ReadError event => reject event
  end.

Definition welcomeRequest : GenerateContentParameters :=
  {| model := modelId; contents := ContentsPrompt WelcomePrompt;
     config := None |}.

Definition getWelcomeMessage (rt : Runtime) : Promise string :=
  ai <- new_GoogleGenAI rt ;;
  try_await
    (response <- generateContent ai welcomeRequest ;;
     resolve (or_else (text response) fallbackWelcome))
    (fun error =>
       log_error "Gemini Welcome Message Error:" error ;;
       resolve fallbackWelcome).

(** [new Error("No response text from Gemini")]. *)
Definition NoResponseText : exn := Error "No response text from Gemini".

(** The [if (response.text) ... else throw ...] both analysis functions end
    their [try] block with. *)
Definition parseResponse (response : GenerateContentResponse) : Promise json :=
  match text response with
  | Some (String c r) => JSON_parse_or_throw (String c r)
  | Some EmptyString => reject NoResponseText
  | None => reject NoResponseText
  end.

Definition textRequest (text : string) : GenerateContentParameters :=
  {| model := modelId;
     contents := ContentsPrompt (TextAnalysisPrompt text);
     config := Some {| responseMimeType := "application/json" |} |}.

Definition analyzeTextTranscript (rt : Runtime) (text : string)
  : Promise json :=
  ai <- new_GoogleGenAI rt ;;
  try_await
    (response <- generateContent ai (textRequest text) ;;
     parseResponse response)
    (fun error =>
       log_error "Gemini Text Analysis Error:" error ;;
       reject error).

Definition audioRequest (base64Audio : option string)
  : GenerateContentParameters :=
  {| model := modelId;
     contents :=
       ContentsParts
         [InlinePart {| mimeType := "audio/wav"; data := base64Audio |};
          TextPart AudioAnalysisPrompt];
     config := Some {| responseMimeType := "application/json" |} |}.

Definition analyzeInterview (rt : Runtime) (audioBlob : Blob)
  : Promise json :=
  ai <- new_GoogleGenAI rt ;;
  base64Audio <- blobToBase64 rt audioBlob ;;
  try_await
    (response <- generateContent ai (audioRequest base64Audio) ;;
     parseResponse response)
    (fun error =>
       log_error "Gemini Analysis Error:" error ;;
       reject error).

(** The request [analyzeInterview] builds for a blob it could read. *)
Definition interviewRequest (audioBlob : Blob) : GenerateContentParameters :=
  audioRequest (nth_error (split "," (data_url audioBlob)) 1).

(** An SDK whose constructor refuses a missing or empty key and otherwise
    returns a client answering as [ai]. *)
Definition keyed_sdk (ai : Backend) (apiKey : option string)
  : completion Backend :=
  match apiKey with
  | Some (String _ _) => Returns ai
  | Some EmptyString => Throws (Error "An API Key must be set")
  | None => Throws (Error "An API Key must be set")
  end.

(** A browser with that SDK, a key in the environment and blobs that can be
    read. *)
Definition serving (ai : Backend) : Runtime :=
  {| API_KEY := Some "key"; GoogleGenAI := keyed_sdk ai;
     readable := fun _ => true |}.

(** The same with no key in the environment. *)
Definition keyless (ai : Backend) : Runtime :=
  {| API_KEY := None; GoogleGenAI := keyed_sdk ai;
     readable := fun _ => true |}.

(** The same as [serving], with a [FileReader] that fails on every blob. *)
Definition unreadable (ai : Backend) : Runtime :=
  {| API_KEY := Some "key"; GoogleGenAI := keyed_sdk ai;
     readable := fun _ => false |}.

(** The requests a run handed to [ai.models.generateContent]. *)
Fixpoint requests (log : list io) : list GenerateContentParameters :=
  match log with
  | [] => []
  | GenerateContent r :: l => r :: requests l
  | LoggedError _ _ :: l => requests l
  end.

End GeminiService.

(** ** components/InterviewRecorder.tsx: the recording handlers *)

Module Recorder.
Import Js.

Definition track : Type := nat.

Record MediaStream : Type := { getTracks : list track }.

Inductive RecordingState : Type := inactive | recording.

(** The function assigned to [onstop] in [stopRecording]: a closure over
    the [stream] and [duration] of the render that ran [stopRecording]. *)
Record OnStop : Type := {
  seen_stream : option MediaStream;
  seen_duration : nat
}.

Record MediaRecorder : Type := {
  rec_stream : MediaStream;
  rec_state : RecordingState;
  rec_buffer : list byte;        (* audio gathered since [start()] *)
  ondataavailable : bool;        (* the handler of [startRecording] is set *)
  onstop : option OnStop
}.

(** Events a [MediaRecorder] has queued for the event loop. *)
Inductive task : Type :=
| DataAvailable (r : nat) (data : Blob)
| StopEvent (r : nat).

(** [useState] and [useRef] cells of the component. *)
Record Component : Type := {
  isRecording : bool;
  duration : nat;
  stream : option MediaStream;
  mediaRecorderRef : option nat;
  chunksRef : list Blob;
  timerRef : option nat
}.

(** The browser: the recorder objects by address, the running interval
    timers, the microphone tracks still open, the queued recorder events,
    and the container type its recorders produce. *)
Record Browser : Type := {
  recorders : list MediaRecorder;
  intervals : list nat;
  next_interval : nat;
  live : list track;
  tasks : list task;
  recorder_mime : string
}.

Record World : Type := { comp : Component; browser : Browser }.

Inductive effect : Type :=
| ConsoleError (label : string) (error : exn)
| Alert (message : string)
| SetStream (s : option MediaStream)
| SetIsRecording (b : bool)
| SetDuration_succ
| RecorderStart (r : nat)
| RecorderStop (r : nat)
| SetInterval (id : nat)
| ClearInterval (id : nat)
| TrackStop (t : track)
| OnSave (blob : Blob) (duration : nat)
| Uncaught (error : exn).

(** A handler run: how it ends, the world it leaves, what it did. *)
Definition M (A : Type) : Type := World -> outcome A * World * list effect.

Definition ret {A} (a : A) : M A := fun w => (Fulfilled a, w, []).

Definition throw {A} (e : exn) : M A := fun w => (Rejected e, w, []).

Definition bind {A B} (m : M A) (k : A -> M B) : M B :=
  fun w =>
    match m w with
    | (Fulfilled a, w1, l1) =>
        match k a w1 with
        | (o, w2, l2) => (o, w2, l1 ++ l2)
        end
    | (Rejected e, w1, l1) => (Rejected e, w1, l1)
    end.

Definition try_catch {A} (body : M A) (handler : exn -> M A) : M A :=
  fun w =>
    match body w with
    | (Fulfilled a, w1, l1) => (Fulfilled a, w1, l1)
    | (Rejected e, w1, l1) =>
        match handler e w1 with
        | (o, w2, l2) => (o, w2, l1 ++ l2)
        end
    end.

Definition get : M World := fun w => (Fulfilled w, w, []).

Definition emit (e : effect) : M unit := fun w => (Fulfilled tt, w, [e]).

Definition on_comp (f : Component -> Component) : M unit :=
  fun w => (Fulfilled tt, {| comp := f (comp w); browser := browser w |}, []).

Definition on_browser (f : Browser -> Browser) : M unit :=
  fun w => (Fulfilled tt, {| comp := comp w; browser := f (browser w) |}, []).

Notation "x <- m ;; k" := (bind m (fun x => k))
  (at level 61, m at next level, right associativity).
Notation "m ;; k" := (bind m (fun _ => k))
  (at level 61, right associativity).

Fixpoint forEach {A} (l : list A) (f : A -> M unit) : M unit :=
  match l with
  | [] => ret tt
  | x :: l' => f x ;; forEach l' f
  end.

(** *** State setters and ref writes *)

Definition with_isRecording (b : bool) (c : Component) : Component :=
  {| isRecording := b; duration := duration c; stream := stream c;
     mediaRecorderRef := mediaRecorderRef c; chunksRef := chunksRef c;
     timerRef := timerRef c |}.

Definition with_duration (d : nat) (c : Component) : Component :=
  {| isRecording := isRecording c; duration := d; stream := stream c;
     mediaRecorderRef := mediaRecorderRef c; chunksRef := chunksRef c;
     timerRef := timerRef c |}.

Definition with_stream (s : option MediaStream) (c : Component) : Component :=
  {| isRecording := isRecording c; duration := duration c; stream := s;
     mediaRecorderRef := mediaRecorderRef c; chunksRef := chunksRef c;
     timerRef := timerRef c |}.

Definition with_mediaRecorderRef (r : option nat) (c : Component)
  : Component :=
  {| isRecording := isRecording c; duration := duration c; stream := stream c;
     mediaRecorderRef := r; chunksRef := chunksRef c;
     timerRef := timerRef c |}.

Definition with_chunksRef (l : list Blob) (c : Component) : Component :=
  {| isRecording := isRecording c; duration := duration c; stream := stream c;
     mediaRecorderRef := mediaRecorderRef c; chunksRef := l;
     timerRef := timerRef c |}.

Definition with_timerRef (t : option nat) (c : Component) : Component :=
  {| isRecording := isRecording c; duration := duration c; stream := stream c;
     mediaRecorderRef := mediaRecorderRef c; chunksRef := chunksRef c;
     timerRef := t |}.

Definition setIsRecording (b : bool) : M unit :=
  emit (SetIsRecording b) ;; on_comp (with_isRecording b).

Definition setStream (s : option MediaStream) : M unit :=
  emit (SetStream s) ;; on_comp (with_stream s).

(** [setDuration(prev => prev + 1)]. *)
Definition setDuration_succ : M unit :=
  emit SetDuration_succ ;; on_comp (fun c => with_duration (duration c + 1) c).

(** *** The browser's side *)

Definition with_recorders (l : list MediaRecorder) (b : Browser) : Browser :=
  {| recorders := l; intervals := intervals b;
     next_interval := next_interval b; live := live b; tasks := tasks b;
     recorder_mime := recorder_mime b |}.

Definition with_intervals (l : list nat) (n : nat) (b : Browser) : Browser :=
  {| recorders := recorders b; intervals := l; next_interval := n;
     live := live b; tasks := tasks b; recorder_mime := recorder_mime b |}.

Definition with_live (l : list track) (b : Browser) : Browser :=
  {| recorders := recorders b; intervals := intervals b;
     next_interval := next_interval b; live := l; tasks := tasks b;
     recorder_mime := recorder_mime b |}.

Definition with_tasks (l : list task) (b : Browser) : Browser :=
  {| recorders := recorders b; intervals := intervals b;
     next_interval := next_interval b; live := live b; tasks := l;
     recorder_mime := recorder_mime b |}.

Fixpoint update {A} (i : nat) (f : A -> A) (l : list A) : list A :=
  match l, i with
  | [], _ => []
  | x :: l', O => f x :: l'
  | x :: l', S i' => x :: update i' f l'
  end.

Definition with_state (s : RecordingState) (buf : list byte)
  (m : MediaRecorder) : MediaRecorder :=
  {| rec_stream := rec_stream m; rec_state := s; rec_buffer := buf;
     ondataavailable := ondataavailable m; onstop := onstop m |}.

Definition with_ondataavailable (m : MediaRecorder) : MediaRecorder :=
  {| rec_stream := rec_stream m; rec_state := rec_state m;
     rec_buffer := rec_buffer m; ondataavailable := true;
     onstop := onstop m |}.

Definition with_onstop (h : OnStop) (m : MediaRecorder) : MediaRecorder :=
  {| rec_stream := rec_stream m; rec_state := rec_state m;
     rec_buffer := rec_buffer m; ondataavailable := ondataavailable m;
     onstop := Some h |}.

(** [await navigator.mediaDevices.getUserMedia({ audio: true })], settled
    by the browser with [gum]: on a grant the stream's tracks are open. *)
Definition getUserMedia (gum : outcome MediaStream) : M MediaStream :=
  match gum with
  | Fulfilled s =>
      on_browser (fun b => with_live (live b ++ getTracks s) b) ;; ret s
  | Rejected e => throw e
  end.

Definition new_MediaRecorder (s : MediaStream) : M nat :=
  w <- get ;;
  on_browser (fun b =>
    with_recorders
      (recorders b ++
         [{| rec_stream := s; rec_state := inactive; rec_buffer := [];
             ondataavailable := false; onstop := None |}]) b) ;;
  ret (length (recorders (browser w))).

Definition the_recorder (r : nat) : M MediaRecorder :=
  w <- get ;;
  match nth_error (recorders (browser w)) r with
  | Some m => ret m
  | None => throw (Error "no such object")
  end.

Definition on_recorder (r : nat) (f : MediaRecorder -> MediaRecorder)
  : M unit :=
  on_browser (fun b => with_recorders (update r f (recorders b)) b).

Definition MediaRecorder_start (r : nat) : M unit :=
  m <- the_recorder r ;;
  match rec_state m with
  | inactive => emit (RecorderStart r) ;; on_recorder r (with_state recording [])
  | recording => throw (DOMException "InvalidStateError")
  end.

(** [stop()]: the recorder goes inactive and queues [dataavailable], with
    what it gathered, then [stop]. *)
Definition MediaRecorder_stop (r : nat) : M unit :=
  m <- the_recorder r ;;
  match rec_state m with
  | inactive => throw (DOMException "InvalidStateError")
  | recording =>
      emit (RecorderStop r) ;;
      on_recorder r (with_state inactive []) ;;
      on_browser (fun b =>
        with_tasks
          (tasks b ++
             [DataAvailable r {| blob_bytes := rec_buffer m;
                                 blob_type := recorder_mime b |};
              StopEvent r]) b)
  end.

Definition setInterval : M nat :=
  w <- get ;;
  let id := next_interval (browser w) in
  emit (SetInterval id) ;;
  on_browser (fun b => with_intervals (intervals b ++ [id]) (S id) b) ;;
  ret id.

Definition clearInterval (id : nat) : M unit :=
  emit (ClearInterval id) ;;
  on_browser (fun b =>
    with_intervals (remove Nat.eq_dec id (intervals b)) (next_interval b) b).

Definition track_stop (t : track) : M unit :=
  emit (TrackStop t) ;;
  on_browser (fun b => with_live (remove Nat.eq_dec t (live b)) b).

Definition console_error (label : string) (e : exn) : M unit :=
  emit (ConsoleError label e).

Definition alert (message : string) : M unit := emit (Alert message).

(** The [onSave] prop: the parent's callback, here only recorded. *)
Definition onSave (blob : Blob) (d : nat) : M unit := emit (OnSave blob d).

(** *** The handlers *)

Definition startRecording (gum : outcome MediaStream) : M unit :=
  try_catch
    (mediaStream <- getUserMedia gum ;;
     setStream (Some mediaStream) ;;
     mediaRecorder <- new_MediaRecorder mediaStream ;;
     on_comp (with_mediaRecorderRef (Some mediaRecorder)) ;;
     on_comp (with_chunksRef []) ;;
     on_recorder mediaRecorder with_ondataavailable ;;
     MediaRecorder_start mediaRecorder ;;
     setIsRecording true ;;
     id <- setInterval ;;
     on_comp (with_timerRef (Some id)))
    (fun err =>
       console_error "Error accessing microphone:" err ;;
       alert "Microphone access denied. Please allow microphone permissions.").

(** [mediaRecorder.ondataavailable]. *)
Definition ondataavailable_handler (data : Blob) : M unit :=
  if (0 <? size data)%nat
  then on_comp (fun c => with_chunksRef (chunksRef c ++ [data]) c)
  else ret tt.

(** [mediaRecorderRef.current.onstop]. *)
Definition onstop_handler (h : OnStop) : M unit :=
  w <- get ;;
  let blob := new_Blob (chunksRef (comp w)) "audio/wav" in
  match seen_stream h with
  | Some s => forEach (getTracks s) track_stop
  | None => ret tt
  end ;;
  setStream None ;;
  onSave blob (seen_duration h).

(** [if (timerRef.current)]: a timer id is a number, and [0] is falsy;
    the ids [setInterval] gives are positive. *)
Definition running_timer (t : option nat) : option nat :=
  match t with
  | Some (S n) => Some (S n)
  | Some O => None
  | None => None
  end.

Definition stopRecording : M unit :=
  w <- get ;;
  match mediaRecorderRef (comp w), isRecording (comp w) with
  | Some r, true =>
      MediaRecorder_stop r ;;
      on_recorder r
        (with_onstop {| seen_stream := stream (comp w);
                        seen_duration := duration (comp w) |}) ;;
      setIsRecording false ;;
      match running_timer (timerRef (comp w)) with
      | Some id => clearInterval id
      | None => ret tt
      end
  | _, _ => ret tt
  end.

(** *** The event loop *)

Definition dispatch (t : task) : M unit :=
  w <- get ;;
  match t with
  | DataAvailable r data =>
      match nth_error (recorders (browser w)) r with
      | Some m => if ondataavailable m then ondataavailable_handler data
                  else ret tt
      | None => ret tt
      end
  | StopEvent r =>
      match nth_error (recorders (browser w)) r with
      | Some m =>
          match onstop m with
          | Some h => onstop_handler h
          | None => ret tt
          end
      | None => ret tt
      end
  end.

(** Deliver the queued recorder events, oldest first. *)
Definition run_tasks : M unit :=
  w <- get ;;
  on_browser (with_tasks []) ;;
  forEach (tasks (browser w)) dispatch.

Inductive event : Type :=
| StartClicked (gum : outcome MediaStream)  (* and the permission request settled *)
| StopClicked
| IntervalFired (id : nat)
| AudioCaptured (r : nat) (bytes : list byte)
| TasksRun.

(** An exception leaving a handler is reported, and the loop goes on. *)
Definition reported (m : M unit) : M unit :=
  try_catch m (fun e => emit (Uncaught e)).

Definition handle (ev : event) : M unit :=
  match ev with
  | StartClicked gum => reported (startRecording gum)
  | StopClicked => reported stopRecording
  | IntervalFired id =>
      w <- get ;;
      if existsb (Nat.eqb id) (intervals (browser w))
      then setDuration_succ else ret tt
  | AudioCaptured r bytes =>
      on_recorder r (fun m =>
        match rec_state m with
        | recording => with_state recording (rec_buffer m ++ bytes) m
        | inactive => m
        end)
  | TasksRun => reported run_tasks
  end.

Definition run (evs : list event) : M unit := forEach evs handle.

(** The component as mounted: [useState(false)], [useState(0)],
    [useState(null)], and the three refs. *)
Definition mounted : Component :=
  {| isRecording := false; duration := 0; stream := None;
     mediaRecorderRef := None; chunksRef := []; timerRef := None |}.

Definition fresh (mime : string) : Browser :=
  {| recorders := []; intervals := []; next_interval := 1; live := [];
     tasks := []; recorder_mime := mime |}.

Definition initial (mime : string) : World :=
  {| comp := mounted; browser := fresh mime |}.

(** The [onSave] calls of a run, in order. *)
Fixpoint saves (l : list effect) : list (Blob * nat) :=
  match l with
  | [] => []
  | OnSave b d :: l' => (b, d) :: saves l'
  | _ :: l' => saves l'
  end.

(** One recording: start with the microphone granted, [k] ticks of the
    interval [id], stop, and the recorder's events delivered. *)
Definition session (s : MediaStream) (id k : nat) : list event :=
  StartClicked (Fulfilled s)
    :: repeat (IntervalFired id) k ++ [StopClicked; TasksRun].

(** Recordings one after the other; each start takes the next interval
    id. *)
Fixpoint sessions (id : nat) (l : list (MediaStream * nat)) : list event :=
  match l with
  | [] => []
  | (s, k) :: l' => session s id k ++ sessions (S id) l'
  end.

Fixpoint running_totals (acc : nat) (ks : list nat) : list nat :=
  match ks with
  | [] => []
  | k :: ks' => (acc + k) :: running_totals (acc + k) ks'
  end.

(** The chunks held once the recorder has delivered [data]. *)
Definition chunks_with (data : Blob) (chunks : list Blob) : list Blob :=
  if (0 <? size data)%nat then chunks ++ [data] else chunks.

Definition tracks_of (s : option MediaStream) : list track :=
  match s with
  | Some s => getTracks s
  | None => []
  end.

(** Tracks left open once each of [ts] was stopped. *)
Definition stop_all (ts : list track) (l : list track) : list track :=
  fold_left (fun acc t => remove Nat.eq_dec t acc) ts l.

(** Every blob handed to [onSave] was built as [new Blob(_, "audio/wav")]. *)
Definition wav_saves (tr : list effect) : Prop :=
  Forall (fun p => exists chunks, fst p = new_Blob chunks "audio/wav")
    (saves tr).

Definition keeps {A} (m : M A) : Prop := forall w, wav_saves (snd (m w)).

(** A world in which a recording is on: granted a stream of two tracks,
    three ticks and two bytes of audio later. *)
Definition recording_world : World :=
  snd (fst (run [StartClicked (Fulfilled {| getTracks := [7; 8] |});
                 IntervalFired 1; AudioCaptured 0 ["001"%byte; "002"%byte];
                 IntervalFired 1; IntervalFired 1]
              (initial "audio/webm"))).

End Recorder.

(** ** What the specification asks of an Analysis Result

    These definitions follow the words of the specification, not the code;
    they are what the code is compared with. *)

Module Spec.
Import Js Json GeminiService.

(** The six fields of the result schema. *)
Definition result_fields : list string :=
  ["transcriptSegments"; "summary"; "diachronicStructure";
   "synchronicStructure"; "satellites"; "suggestions"].

(** "Missing arrays degrade to empty sequences, missing strings degrade to
    empty string." *)
Definition empty_container (field : string) : json :=
  if String.eqb field "summary" then JString EmptyString else JArray [].

Definition is_string (v : option json) : bool :=
  match v with Some (JString _) => true | _ => false end.

Definition array_of (p : json -> bool) (v : option json) : bool :=
  match v with Some (JArray l) => forallb p l | _ => false end.

Definition record_of (keys : list string) (v : json) : bool :=
  forallb (fun k => is_string (get v k)) keys.

(** The document "exactly matching" the schema of the backend contract. *)
Definition result_shape (v : json) : bool :=
  array_of (record_of ["speaker"; "text"; "timestamp"])
    (get v "transcriptSegments")
  && is_string (get v "summary")
  && array_of (record_of ["phase"; "description"; "timestampEstimate"])
       (get v "diachronicStructure")
  && array_of (record_of ["modality"; "description"; "submodality"])
       (get v "synchronicStructure")
  && array_of (fun x => is_string (Some x)) (get v "satellites")
  && array_of (fun x => is_string (Some x)) (get v "suggestions").

(** A response that carries text [t]. *)
Definition answers (t : string) : outcome GenerateContentResponse :=
  Fulfilled {| text := Some t |}.

(** The missing-field sentence, as the specification words it: whatever
    field the response document lacks, the result of either analysis
    function has the empty container in its place. *)
Definition missing_fields_default : Prop :=
  forall (rt : Runtime) (ai : Backend) (input : string) (audioBlob : Blob)
         (t : string) (o : list (string * json)) (field : string),
    client rt = Returns ai ->
    readable rt audioBlob = true ->
    ai (textRequest input) = answers t ->
    ai (interviewRequest audioBlob) = answers t ->
    JSON_parse t = Some (JObject o) ->
    In field result_fields -> obj_get field o = None ->
    (exists v, fst (analyzeTextTranscript rt input) = Fulfilled v /\
               get v field = Some (empty_container field)) /\
    (exists v, fst (analyzeInterview rt audioBlob) = Fulfilled v /\
               get v field = Some (empty_container field)).

(** The malformed-result sentence, as the specification words it: text that
    does not parse to a document of the expected shape makes either
    analysis function fail, and not with the error for a response without
    text. *)
Definition malformed_is_failure : Prop :=
  forall (rt : Runtime) (ai : Backend) (input : string) (audioBlob : Blob)
         (t : string),
    client rt = Returns ai ->
    readable rt audioBlob = true ->
    ai (textRequest input) = answers t ->
    ai (interviewRequest audioBlob) = answers t ->
    t <> EmptyString ->
    (forall v, JSON_parse t = Some v -> result_shape v = false) ->
    (exists e, fst (analyzeTextTranscript rt input) = Rejected e /\
               e <> NoResponseText) /\
    (exists e, fst (analyzeInterview rt audioBlob) = Rejected e /\
               e <> NoResponseText).

(** The welcome sentence, as the specification words it: the welcome
    message "never fails outward", it is "never an exception". *)
Definition welcome_never_fails : Prop :=
  forall rt : Runtime, exists msg, fst (getWelcomeMessage rt) = Fulfilled msg.


(** A response document that has [summary] and nothing else. *)
Definition only_summary : string :=
  "{" ++ quoted "summary" ++ ":" ++ quoted "x" ++ "}".

End Spec.

(** ** services/geminiService.ts: what a run logged *)

Module GeminiServiceLog.
Import Js GeminiService.

(** The errors a run logged with [console.error]. *)
Fixpoint logged (log : list io) : list (string * exn) :=
  match log with
  | [] => []
  | LoggedError label e :: l => (label, e) :: logged l
  | GenerateContent _ :: l => logged l
  end.

End GeminiServiceLog.

(** ** components/InterviewRecorder.tsx: the clock and the welcome message *)

Module RecorderView.
Import Js GeminiService.
Import Decimal DecimalString DecimalNat.

(** [n.toString()] for a count of seconds or minutes: its decimal digits. *)
Definition toString (n : nat) : string :=
  NilZero.string_of_uint (Nat.to_uint n).

Fixpoint replicate (n : nat) (c : ascii) : string :=
  match n with
  | O => EmptyString
  | S n' => String c (replicate n' c)
  end.

(** [s.padStart(target, c)] for a one-character pad. *)
Definition padStart (target : nat) (c : ascii) (s : string) : string :=
  (replicate (target - String.length s) c ++ s)%string.

Definition formatTime (seconds : nat) : string :=
  let mins := seconds / 60 in
  let secs := seconds mod 60 in
  (padStart 2 "0" (toString mins) ++ ":" ++ padStart 2 "0" (toString secs))%string.

(** Reading a decimal numeral, leading zeros allowed. *)
Definition digits_value (s : string) : option nat :=
  option_map Nat.of_uint (NilZero.uint_of_string s).

(** Reading a clock text back: minutes and seconds around the colon. *)
Definition readTime (s : string) : option nat :=
  match split ":" s with
  | [m; sec] =>
      match digits_value m, digits_value sec with
      | Some a, Some b => Some (60 * a + b)
      | _, _ => None
      end
  | _ => None
  end.

Definition decimal_digit (c : ascii) : bool :=
  let k := N_of_ascii c in (48 <=? k)%N && (k <=? 57)%N.

(** The two [useState] cells of the guide box. *)
Record Guide : Type := {
  welcomeMessage : string;
  isLoadingMessage : bool
}.

(** [useState('')] and [useState(true)]. *)
Definition guide_mounted : Guide :=
  {| welcomeMessage := EmptyString; isLoadingMessage := true |}.

Inductive guide_effect : Type :=
| Service (e : io)
| SetWelcomeMessage (msg : string)
| SetIsLoadingMessage (b : bool)
| ConsoleErrorValue (e : exn).

(** [fetchWelcome] of the mount effect, from the moment the promise of
    [getWelcomeMessage] settles; [mounted] is the flag as the effect's
    cleanup has left it by then. *)
Definition fetchWelcome (rt : Runtime) (mounted : bool) (g : Guide)
  : Guide * list guide_effect :=
  let (result, log) := getWelcomeMessage rt in
  let (g1, l1) :=
    match result with
    | Fulfilled msg =>
        if mounted
        then ({| welcomeMessage := msg;
                 isLoadingMessage := isLoadingMessage g |},
              [SetWelcomeMessage msg])
        else (g, [])
    | Rejected e => (g, [ConsoleErrorValue e])
    end in
  let (g2, l2) :=
    if mounted
    then ({| welcomeMessage := welcomeMessage g1; isLoadingMessage := false |},
          [SetIsLoadingMessage false])
    else (g1, []) in
  (g2, map Service log ++ l1 ++ l2).

(** What the guide box shows. *)
Inductive guide_view : Type :=
| Spinner
| Quote (message : string).

Definition render_guide (g : Guide) : guide_view :=
  if isLoadingMessage g then Spinner else Quote (welcomeMessage g).

Definition no_colon (c : ascii) : bool := negb (Ascii.eqb c ":").

Definition two_wide (n : nat) : bool :=
  Nat.eqb (String.length (padStart 2 "0" (toString n))) 2.

End RecorderView.

(** ** components/InterviewRecorder.tsx: whole runs of the recorder *)

Module RecorderRuns.
Import Js Recorder.

(** One recording with audio: the microphone granted, [k] ticks of the
    interval [id], [audio] gathered by the recorder at address [r], stop,
    and the recorder's events delivered. *)
Definition one_recording (s : MediaStream) (id r k : nat) (audio : list byte)
  : list event :=
  StartClicked (Fulfilled s)
    :: repeat (IntervalFired id) k
    ++ [AudioCaptured r audio; StopClicked; TasksRun].

(** Recordings one after the other: each start takes the next interval id
    and makes the next recorder. *)
Fixpoint recordings (id r : nat) (l : list (MediaStream * nat * list byte))
  : list event :=
  match l with
  | [] => []
  | (s, k, audio) :: l' =>
      one_recording s id r k audio ++ recordings (S id) (S r) l'
  end.

(** The blobs and durations the recordings of [l] hand to [onSave], the
    seconds counter standing at [acc] before. *)
Fixpoint artifacts (acc : nat) (l : list (MediaStream * nat * list byte))
  : list (Blob * nat) :=
  match l with
  | [] => []
  | (_, k, audio) :: l' =>
      ({| blob_bytes := audio; blob_type := "audio/wav" |}, acc + k)
        :: artifacts (acc + k) l'
  end.

(** The exceptions a run reported as uncaught. *)
Fixpoint uncaught (tr : list effect) : list exn :=
  match tr with
  | [] => []
  | Uncaught e :: t => e :: uncaught t
  | _ :: t => uncaught t
  end.

(** Every [onSave] of the trace comes right after a [setStream(null)];
    [released] tells whether the call before the trace was one. *)
Fixpoint released_before_save (released : bool) (tr : list effect) : bool :=
  match tr with
  | [] => true
  | OnSave _ _ :: t => released && released_before_save false t
  | SetStream None :: t => released_before_save true t
  | _ :: t => released_before_save false t
  end.

(** While [isRecording] is set, the ref holds a recorder that is
    recording. *)
Definition recorder_ready (w : World) : Prop :=
  isRecording (comp w) = true ->
  exists r m,
    mediaRecorderRef (comp w) = Some r /\
    nth_error (recorders (browser w)) r = Some m /\
    rec_state m = recording.

Definition released_ok (tr : list effect) : Prop :=
  released_before_save false tr = true.

(** [P] holds of the trace of [m], whatever state it runs in. *)
Definition always (P : list effect -> Prop) {A} (m : M A) : Prop :=
  forall w, P (snd (m w)).

End RecorderRuns.

(** ** components/MicrophoneVisualizer.tsx: the life of the effect

    The effect of the component and its cleanup, run by React when the
    component mounts, when [stream] or [isRecording] change, and when it
    unmounts; the [draw] loop, run by the browser once per animation
    frame.  What [draw] paints is left out: only that it clears, or reads
    the analyser and paints. *)

Module Visualizer.
Import Js.

Record Props : Type := { stream_prop : option Recorder.MediaStream;
                         isRecording_prop : bool }.

(** One run of the effect: its [audioContext] and the [isRecording] its
    [draw] closes over. *)
Record Run : Type := { context : nat; recording_seen : bool }.

Record State : Type := {
  deps : option Props;            (* the props of the last effect run *)
  cleanup : option Run;           (* the cleanup React holds, if any *)
  animationRef : option nat;
  canvas : bool;                  (* [canvasRef.current] is set *)
  context2d : bool;               (* [canvas.getContext('2d')] gives a context *)
  open_contexts : list nat;       (* audio contexts not closed *)
  next_context : nat;
  frames : list (nat * Run);      (* callbacks waiting for the next frame *)
  next_frame : nat
}.

Inductive vis_effect : Type :=
| NewAudioContext (id : nat)
| CloseAudioContext (id : nat)
| RequestAnimationFrame (id : nat)
| CancelAnimationFrame (id : nat)
| ClearRect
| GetByteFrequencyData (context : nat)
| Paint.

Definition V (A : Type) : Type := State -> A * State * list vis_effect.

Definition vret {A} (a : A) : V A := fun s => (a, s, []).

Definition vbind {A B} (m : V A) (k : A -> V B) : V B :=
  fun s =>
    match m s with
    | (a, s1, l1) =>
        match k a s1 with
        | (b, s2, l2) => (b, s2, l1 ++ l2)
        end
    end.

Notation "x <- m ;; k" := (vbind m (fun x => k))
  (at level 61, m at next level, right associativity).
Notation "m ;; k" := (vbind m (fun _ => k))
  (at level 61, right associativity).

Definition with_deps (p : option Props) (s : State) : State :=
  {| deps := p; cleanup := cleanup s; animationRef := animationRef s;
     canvas := canvas s; context2d := context2d s;
     open_contexts := open_contexts s; next_context := next_context s;
     frames := frames s; next_frame := next_frame s |}.

Definition with_cleanup (r : option Run) (s : State) : State :=
  {| deps := deps s; cleanup := r; animationRef := animationRef s;
     canvas := canvas s; context2d := context2d s;
     open_contexts := open_contexts s; next_context := next_context s;
     frames := frames s; next_frame := next_frame s |}.

Definition with_canvas (b : bool) (s : State) : State :=
  {| deps := deps s; cleanup := cleanup s; animationRef := animationRef s;
     canvas := b; context2d := context2d s;
     open_contexts := open_contexts s; next_context := next_context s;
     frames := frames s; next_frame := next_frame s |}.

(** [new AudioContext()]. *)
Definition new_AudioContext : V nat :=
  fun s =>
    (next_context s,
     {| deps := deps s; cleanup := cleanup s; animationRef := animationRef s;
        canvas := canvas s; context2d := context2d s;
        open_contexts := open_contexts s ++ [next_context s];
        next_context := S (next_context s); frames := frames s;
        next_frame := next_frame s |},
     [NewAudioContext (next_context s)]).

(** [audioContext.close()]. *)
Definition close_AudioContext (id : nat) : V unit :=
  fun s =>
    (tt,
     {| deps := deps s; cleanup := cleanup s; animationRef := animationRef s;
        canvas := canvas s; context2d := context2d s;
        open_contexts := remove Nat.eq_dec id (open_contexts s);
        next_context := next_context s; frames := frames s;
        next_frame := next_frame s |},
     [CloseAudioContext id]).

(** [animationRef.current = requestAnimationFrame(draw)], [draw] being the
    one of the run [r]. *)
Definition request_frame (r : Run) : V unit :=
  fun s =>
    (tt,
     {| deps := deps s; cleanup := cleanup s;
        animationRef := Some (next_frame s);
        canvas := canvas s; context2d := context2d s;
        open_contexts := open_contexts s;
        next_context := next_context s;
        frames := frames s ++ [(next_frame s, r)];
        next_frame := S (next_frame s) |},
     [RequestAnimationFrame (next_frame s)]).

(** [cancelAnimationFrame(id)]. *)
Definition cancel_frame (id : nat) : V unit :=
  fun s =>
    (tt,
     {| deps := deps s; cleanup := cleanup s; animationRef := animationRef s;
        canvas := canvas s; context2d := context2d s;
        open_contexts := open_contexts s;
        next_context := next_context s;
        frames := filter (fun f => negb (Nat.eqb (fst f) id)) (frames s);
        next_frame := next_frame s |},
     [CancelAnimationFrame id]).

Definition say (e : vis_effect) : V unit := fun s => (tt, s, [e]).

Definition read : V State := fun s => (s, s, []).

(** [draw]: nothing without the canvas or without its 2d context;
    otherwise the next frame is asked for first, and then the canvas is
    cleared, or the analyser read and the bars painted. *)
Definition draw (r : Run) : V unit :=
  s <- read ;;
  if canvas s then
    if context2d s then
      request_frame r ;;
      if recording_seen r
      then say (GetByteFrequencyData (context r)) ;; say Paint
      else say ClearRect
    else vret tt
  else vret tt.

(** The function the effect returns. *)
Definition run_cleanup (r : Run) : V unit :=
  s <- read ;;
  match animationRef s with
  | Some (S n) => cancel_frame (S n)
  | Some O => vret tt
  | None => vret tt
  end ;;
  close_AudioContext (context r).

(** The body of the effect, for the props of this render. *)
Definition run_effect (p : Props) : V unit :=
  s <- read ;;
  match stream_prop p, canvas s with
  | Some _, true =>
      ctx <- new_AudioContext ;;
      let r := {| context := ctx; recording_seen := isRecording_prop p |} in
      draw r ;;
      (fun s => (tt, with_cleanup (Some r) s, []))
  | _, _ => fun s => (tt, with_cleanup None s, [])
  end.

Definition run_held_cleanup : V unit :=
  s <- read ;;
  match cleanup s with
  | Some r => run_cleanup r
  | None => vret tt
  end.

(** The same stream object, told by its tracks. *)
Definition same_stream (a b : option Recorder.MediaStream) : bool :=
  match a, b with
  | Some x, Some y =>
      if list_eq_dec Nat.eq_dec (Recorder.getTracks x) (Recorder.getTracks y)
      then true else false
  | None, None => true
  | _, _ => false
  end.

Definition same_deps (a b : Props) : bool :=
  same_stream (stream_prop a) (stream_prop b)
  && Bool.eqb (isRecording_prop a) (isRecording_prop b).

Inductive vis_event : Type :=
| Rendered (p : Props)   (* React committed a render with these props *)
| FrameDue               (* the browser runs the animation frame callbacks *)
| Unmounted.

Fixpoint run_frames (l : list (nat * Run)) : V unit :=
  match l with
  | [] => vret tt
  | (_, r) :: l' => draw r ;; run_frames l'
  end.

Definition step (ev : vis_event) : V unit :=
  s <- read ;;
  match ev with
  | Rendered p =>
      match deps s with
      | None =>
          (fun s => (tt, with_deps (Some p) (with_canvas true s), [])) ;;
          run_effect p
      | Some old =>
          if same_deps old p then vret tt
          else
            run_held_cleanup ;;
            (fun s => (tt, with_deps (Some p) s, [])) ;;
            run_effect p
      end
  | FrameDue =>
      (fun s =>
         (tt,
          {| deps := deps s; cleanup := cleanup s;
             animationRef := animationRef s; canvas := canvas s;
             context2d := context2d s; open_contexts := open_contexts s;
             next_context := next_context s; frames := [];
             next_frame := next_frame s |}, [])) ;;
      run_frames (frames s)
  | Unmounted =>
      run_held_cleanup ;;
      (fun s => (tt, with_cleanup None (with_canvas false s), []))
  end.

Fixpoint steps (evs : list vis_event) : V unit :=
  match evs with
  | [] => vret tt
  | ev :: evs' => step ev ;; steps evs'
  end.

(** Before the first render, in a browser whose canvas gives a 2d context
    or does not; frame ids are positive. *)
Definition unmounted (context2d : bool) : State :=
  {| deps := None; cleanup := None; animationRef := None; canvas := false;
     context2d := context2d; open_contexts := []; next_context := 0;
     frames := []; next_frame := 1 |}.

(** The effect that is set up owns the one open context and, where the
    canvas can be drawn on, the one waiting frame; with no effect set up
    there is neither. *)
Definition tidy (s : State) : Prop :=
  next_frame s <> 0 /\
  match cleanup s with
  | Some r =>
      deps s <> None /\
      canvas s = true /\
      open_contexts s = [context r] /\
      if context2d s
      then exists id, id <> 0 /\ animationRef s = Some id /\ frames s = [(id, r)]
      else frames s = []
  | None => open_contexts s = [] /\ frames s = []
  end.

(** While the component is mounted, the effect that is set up is the one
    of the props it last ran for: none without a stream, and with a stream
    one whose [draw] sees the [isRecording] of those props. *)
Definition in_sync (s : State) : Prop :=
  match deps s with
  | Some p =>
      canvas s = true /\
      match stream_prop p with
      | Some _ =>
          exists r, cleanup s = Some r /\
                    recording_seen r = isRecording_prop p
      | None => cleanup s = None
      end
  | None => cleanup s = None
  end.

(** What one animation frame does, by the effect that is set up. *)
Definition frame_trace (s : State) : list vis_effect :=
  match cleanup s with
  | Some r =>
      if context2d s
      then RequestAnimationFrame (next_frame s) ::
             if recording_seen r
             then [GetByteFrequencyData (context r); Paint]
             else [ClearRect]
      else []
  | None => []
  end.

End Visualizer.

(** ** server.js: the static file server

    [path.extname] is Node's and is taken as a parameter; its results are
    empty or begin with a dot, so the table lookup never reaches an
    inherited property.  The file system is a function from a path to what
    [fs.readFile] hands its callback. *)

Module Server.
Import Js.

Definition MIME_TYPES : list (string * string) :=
  [(".html", "text/html");
   (".js", "text/javascript");
   (".css", "text/css");
   (".json", "application/json");
   (".png", "image/png");
   (".jpg", "image/jpeg");
   (".jpeg", "image/jpeg");
   (".wav", "audio/wav");
   (".svg", "image/svg+xml");
   (".ico", "image/x-icon");
   (".txt", "text/plain");
   (".tsx", "text/plain");
   (".ts", "text/plain")].

Fixpoint lookup (k : string) (table : list (string * string)) : option string :=
  match table with
  | [] => None
  | (k', v) :: t => if String.eqb k k' then Some v else lookup k t
  end.

(** [s.indexOf(c)], [None] for [-1]. *)
Fixpoint indexOf (c : ascii) (s : string) : option nat :=
  match s with
  | EmptyString => None
  | String x r =>
      if Ascii.eqb x c then Some 0 else option_map S (indexOf c r)
  end.

(** [s.substring(0, n)]. *)
Fixpoint prefix_of (n : nat) (s : string) : string :=
  match n, s with
  | S n', String x r => String x (prefix_of n' r)
  | _, _ => EmptyString
  end.

(** What [fs.readFile] passes to its callback: the content, or an error
    with its [code]. *)
Inductive read_result : Type :=
| Content (content : string)
| ReadFailed (code : string).

Definition FileSystem : Type := string -> read_result.

Record Request : Type := { method : string; url : string }.

Inductive action : Type :=
| ConsoleLog (line : string)
| ConsoleErrorCode (label code : string)
| ReadFile (path : string)
| WriteHead (status : nat) (contentType : option string)
| End_ (body : string).

(** The file looked up for a URL. *)
Definition filePath (url : string) : string :=
  let filePath := ("." ++ url)%string in
  let filePath := if String.eqb filePath "./" then "./index.html"
                  else filePath in
  match indexOf "?" filePath with
  | Some queryIndex => prefix_of queryIndex filePath
  | None => filePath
  end.

(** [MIME_TYPES[extname] || 'application/octet-stream']. *)
Definition contentType (ext : string) : string :=
  or_else (lookup ext MIME_TYPES) "application/octet-stream".

(** What the server does with a file once it has its path: the reads and
    the response. *)
Definition serve (extname : string -> string) (fs : FileSystem)
  (path : string) : list action :=
  ReadFile path ::
  match fs path with
  | ReadFailed code =>
      if String.eqb code "ENOENT" then
        ReadFile "./index.html" ::
        match fs "./index.html" with
        | ReadFailed code' =>
            [ConsoleErrorCode "Error loading index.html fallback:" code';
             WriteHead 500 None; End_ "Error loading index.html"]
        | Content content =>
            [WriteHead 200 (Some "text/html"); End_ content]
        end
      else
        [ConsoleErrorCode "Server error:" code;
         WriteHead 500 None; End_ ("Server Error: " ++ code)]
  | Content content =>
      [WriteHead 200 (Some (contentType (extname path))); End_ content]
  end.

(** The request listener; [now] is [new Date().toISOString()]. *)
Definition listener (extname : string -> string) (fs : FileSystem)
  (now : string) (req : Request) : list action :=
  ConsoleLog (now ++ " - " ++ method req ++ " " ++ url req)
    :: serve extname fs (filePath (url req)).

(** The response of a run: each [writeHead] with the [end] after it. *)
Fixpoint responses (tr : list action)
  : list (nat * option string * string) :=
  match tr with
  | WriteHead status ct :: End_ body :: t => (status, ct, body) :: responses t
  | _ :: t => responses t
  | [] => []
  end.

(** The files a run asked the file system for. *)
Fixpoint reads (tr : list action) : list string :=
  match tr with
  | ReadFile p :: t => p :: reads t
  | _ :: t => reads t
  | [] => []
  end.

Definition no_query (s : string) : bool :=
  string_forallb (fun c => negb (Ascii.eqb c "?")) s.

End Server.

(** * Part II: properties *)

(** ** Base64 round trip *)

Module Base64Facts.
Import Base64.
Local Open Scope N_scope.

Lemma sextet_table : forallb sextet_ok (seq 0 64) = true.
Proof. vm_compute. reflexivity. Qed.

Lemma sextet_ok_lt (n : N) : n < 64 -> sextet_ok (N.to_nat n) = true.
Proof.
  intros Hn.
  apply (proj1 (forallb_forall sextet_ok (seq 0 64)) sextet_table).
  apply in_seq. lia.
Qed.

Lemma sextet_of_char_of_sextet (n : N) :
  n < 64 -> sextet_of_char (char_of_sextet n) = Some n.
Proof.
  intros Hn. pose proof (sextet_ok_lt n Hn) as H.
  unfold sextet_ok in H. rewrite N2Nat.id in H.
  destruct (sextet_of_char (char_of_sextet n)) as [m|]; [|discriminate].
  apply andb_prop in H. destruct H as [H _].
  apply N.eqb_eq in H. now subst.
Qed.

Lemma char_of_sextet_not_pad (n : N) :
  n < 64 -> is_pad (char_of_sextet n) = false.
Proof.
  intros Hn. pose proof (sextet_ok_lt n Hn) as H.
  unfold sextet_ok in H. rewrite N2Nat.id in H.
  destruct (sextet_of_char (char_of_sextet n)); [|discriminate].
  apply andb_prop in H. destruct H as [_ H].
  now apply negb_true_iff in H.
Qed.

Lemma is_pad_pad : is_pad pad = true.
Proof. reflexivity. Qed.

Lemma s1_lt (a : N) : a < 256 -> s1 a < 64.
Proof. intros Ha. unfold s1. apply N.Div0.div_lt_upper_bound. lia. Qed.

Lemma s2_lt (a b : N) : b < 256 -> s2 a b < 64.
Proof.
  intros Hb. unfold s2.
  assert (a mod 4 < 4) by (apply N.mod_lt; lia).
  assert (b / 16 < 16) by (apply N.Div0.div_lt_upper_bound; lia).
  lia.
Qed.

Lemma s3_lt (b c : N) : c < 256 -> s3 b c < 64.
Proof.
  intros Hc. unfold s3.
  assert (b mod 16 < 16) by (apply N.mod_lt; lia).
  assert (c / 64 < 4) by (apply N.Div0.div_lt_upper_bound; lia).
  lia.
Qed.

Lemma s4_lt (c : N) : s4 c < 64.
Proof. unfold s4. apply N.mod_lt. lia. Qed.

Lemma o1_s (a b : N) : b < 256 -> o1 (s1 a) (s2 a b) = a.
Proof.
  intros Hb. unfold o1, s1, s2.
  assert (b / 16 < 16) by (apply N.Div0.div_lt_upper_bound; lia).
  rewrite N.div_add_l by lia.
  rewrite (N.div_small (b / 16) 16) by assumption.
  rewrite N.add_0_r.
  rewrite (N.div_mod a 4) at 3 by lia. lia.
Qed.

Lemma o2_s (a b c : N) : b < 256 -> c < 256 -> o2 (s2 a b) (s3 b c) = b.
Proof.
  intros Hb Hc. unfold o2, s2, s3.
  assert (b / 16 < 16) by (apply N.Div0.div_lt_upper_bound; lia).
  assert (c / 64 < 4) by (apply N.Div0.div_lt_upper_bound; lia).
  rewrite (N.add_comm (a mod 4 * 16)), N.Div0.mod_add.
  rewrite (N.mod_small (b / 16) 16) by assumption.
  rewrite N.div_add_l by lia.
  rewrite (N.div_small (c / 64) 4) by assumption.
  rewrite N.add_0_r.
  rewrite (N.div_mod b 16) at 3 by lia. lia.
Qed.

Lemma o3_s (b c : N) : c < 256 -> o3 (s3 b c) (s4 c) = c.
Proof.
  intros Hc. unfold o3, s3, s4.
  assert (c / 64 < 4) by (apply N.Div0.div_lt_upper_bound; lia).
  rewrite (N.add_comm (b mod 16 * 4)), N.Div0.mod_add.
  rewrite (N.mod_small (c / 64) 4) by assumption.
  rewrite (N.div_mod c 64) at 3 by lia. lia.
Qed.

Lemma list_ind3 {A} (P : list A -> Prop) :
  P [] -> (forall a, P [a]) -> (forall a b, P [a; b]) ->
  (forall a b c rest, P rest -> P (a :: b :: c :: rest)) ->
  forall l, P l.
Proof.
  intros H0 H1 H2 H3.
  fix IH 1.
  intros [|a [|b [|c rest]]];
    [apply H0 | apply H1 | apply H2 | apply H3, IH].
Qed.

Ltac sextet_bound :=
  first [apply s1_lt | apply s2_lt | apply s3_lt | apply s4_lt];
  first [assumption | lia].

Lemma byte_lt (x : byte) : Byte.to_N x < 256.
Proof. pose proof (Byte.to_N_bounded x). lia. Qed.

Lemma encode_nil_inv (bs : list byte) : encode bs = [] -> bs = [].
Proof. destruct bs as [|a [|b [|c rest]]]; simpl; congruence. Qed.

Lemma decode_quad_full (a b c : byte) :
  decode_quad (char_of_sextet (s1 (Byte.to_N a)))
              (char_of_sextet (s2 (Byte.to_N a) (Byte.to_N b)))
              (char_of_sextet (s3 (Byte.to_N b) (Byte.to_N c)))
              (char_of_sextet (s4 (Byte.to_N c))) = Some [a; b; c].
Proof.
  pose proof (byte_lt a) as Ha. pose proof (byte_lt b) as Hb.
  pose proof (byte_lt c) as Hc.
  unfold decode_quad.
  rewrite !sextet_of_char_of_sextet by sextet_bound.
  cbn [opt_bind].
  rewrite !char_of_sextet_not_pad by sextet_bound.
  rewrite o1_s, o2_s, o3_s by assumption.
  rewrite !Byte.of_to_N. reflexivity.
Qed.

Lemma decode_quad_two (a b : byte) :
  decode_quad (char_of_sextet (s1 (Byte.to_N a)))
              (char_of_sextet (s2 (Byte.to_N a) (Byte.to_N b)))
              (char_of_sextet (s3 (Byte.to_N b) 0)) pad = Some [a; b].
Proof.
  pose proof (byte_lt a) as Ha. pose proof (byte_lt b) as Hb.
  assert (H0 : 0 < 256) by lia.
  unfold decode_quad.
  rewrite !sextet_of_char_of_sextet by sextet_bound.
  cbn [opt_bind].
  rewrite char_of_sextet_not_pad by sextet_bound.
  rewrite is_pad_pad.
  rewrite o1_s, (o2_s _ _ 0) by assumption.
  rewrite !Byte.of_to_N. reflexivity.
Qed.

Lemma decode_quad_one (a : byte) :
  decode_quad (char_of_sextet (s1 (Byte.to_N a)))
              (char_of_sextet (s2 (Byte.to_N a) 0)) pad pad = Some [a].
Proof.
  pose proof (byte_lt a) as Ha.
  assert (H0 : 0 < 256) by lia.
  unfold decode_quad.
  rewrite !sextet_of_char_of_sextet by sextet_bound.
  cbn [opt_bind].
  rewrite is_pad_pad.
  rewrite (o1_s _ 0) by assumption.
  rewrite !Byte.of_to_N. reflexivity.
Qed.

Theorem decode_encode (bs : list byte) : decode (encode bs) = Some bs.
Proof.
  induction bs as [|a|a b|a b c rest IH] using list_ind3.
  - reflexivity.
  - cbn [encode decode]. rewrite decode_quad_one. reflexivity.
  - cbn [encode decode]. rewrite decode_quad_two. reflexivity.
  - cbn [encode decode]. rewrite decode_quad_full. cbn [opt_bind].
    destruct (encode rest) as [|x xs] eqn:E.
    + apply encode_nil_inv in E. subst rest. reflexivity.
    + rewrite char_of_sextet_not_pad by (apply s4_lt).
      rewrite IH. reflexivity.
Qed.

End Base64Facts.

(** ** [JSON.parse] always answers *)

Module JsonFacts.
Import Json.

Lemma skip_ws_le (s : list ascii) : length (skip_ws s) <= length s.
Proof.
  induction s as [|c r IH]; simpl; [lia|].
  destruct (is_ws c); simpl; lia.
Qed.

Lemma span_digits_le (s : list ascii) :
  length (snd (span_digits s)) <= length s.
Proof.
  induction s as [|c r IH]; simpl; [lia|].
  destruct (is_digit c); simpl; [|lia].
  destruct (span_digits r) as [ds r']. simpl in *. lia.
Qed.

Lemma parse_chars_lt_aux (n : nat) : forall s cs r,
  length s <= n -> parse_chars s = Some (cs, r) -> length r < length s.
Proof.
  induction n as [|n IH]; intros s cs r Hn H.
  - destruct s; [discriminate | simpl in Hn; lia].
  - destruct s as [|c s']; [discriminate|].
    simpl in Hn. cbn [parse_chars] in H.
    destruct (Ascii.eqb c "034").
    { injection H as _ <-. simpl. lia. }
    destruct (Ascii.eqb c "\").
    { destruct s' as [|e r1]; [discriminate|].
      destruct (Ascii.eqb e "u").
      - destruct r1 as [|h1 [|h2 [|h3 [|h4 r2]]]]; try discriminate.
        destruct (hex_value h1), (hex_value h2), (hex_value h3),
          (hex_value h4); try discriminate.
        destruct (parse_chars r2) as [[cs' rest]|] eqn:E; [|discriminate].
        injection H as _ <-.
        apply IH in E; simpl in *; lia.
      - destruct (escape e); [|discriminate].
        destruct (parse_chars r1) as [[cs' rest]|] eqn:E; [|discriminate].
        injection H as _ <-.
        apply IH in E; simpl in *; lia. }
    destruct (N_of_ascii c <? 32)%N; [discriminate|].
    destruct (parse_chars s') as [[cs' rest]|] eqn:E; [|discriminate].
    injection H as _ <-.
    apply IH in E; simpl in *; lia.
Qed.

Lemma parse_chars_lt (s cs r : list ascii) :
  parse_chars s = Some (cs, r) -> length r < length s.
Proof. apply (parse_chars_lt_aux (length s)). lia. Qed.

Lemma parse_int_lt (s i r : list ascii) :
  parse_int s = Some (i, r) -> length r < length s.
Proof.
  destruct s as [|c s']; [discriminate|]. unfold parse_int.
  destruct (Ascii.eqb c "0").
  - intros H; injection H as _ <-. simpl. lia.
  - destruct (is_digit c); [|discriminate].
    pose proof (span_digits_le s') as Hle.
    destruct (span_digits s') as [ds r']. simpl in Hle.
    intros H; injection H as _ <-. simpl. lia.
Qed.

Lemma parse_frac_le (s f r : list ascii) :
  parse_frac s = Some (f, r) -> length r <= length s.
Proof.
  destruct s as [|c s']; unfold parse_frac.
  - intros H; injection H as _ <-. lia.
  - destruct (Ascii.eqb c ".").
    + pose proof (span_digits_le s') as Hle.
      destruct (span_digits s') as [[|d ds] r']; [discriminate|].
      simpl in Hle. intros H; injection H as _ <-. simpl. lia.
    + intros H; injection H as _ <-. lia.
Qed.

Lemma parse_exp_le (s e r : list ascii) :
  parse_exp s = Some (e, r) -> length r <= length s.
Proof.
  destruct s as [|c s']; unfold parse_exp.
  - intros H; injection H as _ <-. lia.
  - destruct (Ascii.eqb c "e" || Ascii.eqb c "E").
    + destruct s' as [|x r0].
      * simpl. discriminate.
      * destruct (Ascii.eqb x "+" || Ascii.eqb x "-").
        -- pose proof (span_digits_le r0) as Hle.
           destruct (span_digits r0) as [[|d ds] r']; [discriminate|].
           simpl in Hle. intros H; injection H as _ <-. simpl. lia.
        -- pose proof (span_digits_le (x :: r0)) as Hle.
           destruct (span_digits (x :: r0)) as [[|d ds] r']; [discriminate|].
           simpl in Hle. intros H; injection H as _ <-. simpl. lia.
    + intros H; injection H as _ <-. lia.
Qed.

Lemma parse_number_lt (s n r : list ascii) :
  parse_number s = Some (n, r) -> length r < length s.
Proof.
  unfold parse_number.
  set (p := match s with
            | c :: r0 => if Ascii.eqb c "-" then ([c], r0) else ([], s)
            | [] => ([], s)
            end).
  assert (Hp : length (snd p) <= length s).
  { subst p. destruct s as [|c r0]; simpl; [lia|].
    destruct (Ascii.eqb c "-"); simpl; lia. }
  destruct p as [sign s0]. simpl in Hp.
  destruct (parse_int s0) as [[i s1]|] eqn:Ei; [|discriminate].
  destruct (parse_frac s1) as [[f s2]|] eqn:Ef; [|discriminate].
  destruct (parse_exp s2) as [[e s3]|] eqn:Ee; [|discriminate].
  intros H; injection H as _ <-.
  apply parse_int_lt in Ei. apply parse_frac_le in Ef.
  apply parse_exp_le in Ee. lia.
Qed.

Lemma strip_prefix_length (p : list ascii) : forall s r,
  strip_prefix p s = Some r -> length r + length p = length s.
Proof.
  induction p as [|a p IH]; intros s r H; simpl in *.
  - injection H as <-. lia.
  - destruct s as [|b s']; [discriminate|].
    destruct (Ascii.eqb a b); [|discriminate].
    apply IH in H. simpl. lia.
Qed.

Lemma lit_lt (w : string) (v v' : json) (s r : list ascii) :
  w <> EmptyString -> lit w v s = Ok (v', r) -> length r < length s.
Proof.
  intros Hw. unfold lit.
  destruct (strip_prefix (list_ascii_of_string w) s) as [r0|] eqn:E;
    [|discriminate].
  intros H; injection H as _ <-.
  apply strip_prefix_length in E.
  destruct w; [congruence|]. simpl in E. lia.
Qed.

Lemma lit_fuel (w : string) (v : json) (s : list ascii) :
  lit w v s <> OutOfFuel.
Proof.
  unfold lit. destruct (strip_prefix _ s); discriminate.
Qed.

Lemma parse_shrinks (fuel : nat) :
  (forall s, shrinks (parse_value fuel s) s) /\
  (forall s acc, shrinks (parse_elements fuel s acc) s) /\
  (forall s acc, shrinks (parse_members fuel s acc) s).
Proof.
  induction fuel as [|fuel (IHv & IHe & IHm)].
  - repeat split; intros; intros v r H; discriminate.
  - repeat split.
    + intros s v r H. cbn [parse_value] in H.
      pose proof (skip_ws_le s) as Hs.
      destruct (skip_ws s) as [|c t]; [discriminate|]. simpl in Hs.
      destruct (Ascii.eqb c "[").
      { pose proof (skip_ws_le t) as Ht.
        destruct (skip_ws t) as [|x t']; [discriminate|]. simpl in Ht.
        destruct (Ascii.eqb x "]").
        - injection H as _ <-. lia.
        - apply IHe in H. lia. }
      destruct (Ascii.eqb c "{").
      { pose proof (skip_ws_le t) as Ht.
        destruct (skip_ws t) as [|x t']; [discriminate|]. simpl in Ht.
        destruct (Ascii.eqb x "}").
        - injection H as _ <-. lia.
        - apply IHm in H. lia. }
      destruct (Ascii.eqb c "034").
      { destruct (parse_chars t) as [[cs t']|] eqn:E; [|discriminate].
        injection H as _ <-. apply parse_chars_lt in E. lia. }
      destruct (Ascii.eqb c "t").
      { apply lit_lt in H; [simpl in H; lia | discriminate]. }
      destruct (Ascii.eqb c "f").
      { apply lit_lt in H; [simpl in H; lia | discriminate]. }
      destruct (Ascii.eqb c "n").
      { apply lit_lt in H; [simpl in H; lia | discriminate]. }
      destruct (parse_number (c :: t)) as [[n t']|] eqn:E; [|discriminate].
      injection H as _ <-. apply parse_number_lt in E. simpl in E. lia.
    + intros s acc v r H. cbn [parse_elements] in H.
      destruct (parse_value fuel s) as [[v1 r1]| |] eqn:E; try discriminate.
      apply IHv in E.
      pose proof (skip_ws_le r1) as Hs.
      destruct (skip_ws r1) as [|x r']; [discriminate|]. simpl in Hs.
      destruct (Ascii.eqb x ",").
      { apply IHe in H. lia. }
      destruct (Ascii.eqb x "]"); [|discriminate].
      injection H as _ <-. lia.
    + intros s acc v r H. cbn [parse_members] in H.
      pose proof (skip_ws_le s) as Hs.
      destruct (skip_ws s) as [|q r0]; [discriminate|]. simpl in Hs.
      destruct (Ascii.eqb q "034"); [|discriminate].
      destruct (parse_chars r0) as [[k r1]|] eqn:Ek; [|discriminate].
      apply parse_chars_lt in Ek.
      pose proof (skip_ws_le r1) as Hs1.
      destruct (skip_ws r1) as [|colon r2]; [discriminate|]. simpl in Hs1.
      destruct (Ascii.eqb colon ":"); [|discriminate].
      destruct (parse_value fuel r2) as [[v1 r3]| |] eqn:E; try discriminate.
      apply IHv in E.
      pose proof (skip_ws_le r3) as Hs3.
      destruct (skip_ws r3) as [|x r4]; [discriminate|]. simpl in Hs3.
      destruct (Ascii.eqb x ",").
      { apply IHm in H. lia. }
      destruct (Ascii.eqb x "}"); [|discriminate].
      injection H as _ <-. lia.
Qed.

Lemma parse_value_shrinks (fuel : nat) (s : list ascii) (v : json)
  (r : list ascii) :
  parse_value fuel s = Ok (v, r) -> length r < length s.
Proof. apply (proj1 (parse_shrinks fuel)). Qed.

Lemma parse_fuel (fuel : nat) :
  (forall s, 2 * length s + 1 <= fuel -> parse_value fuel s <> OutOfFuel) /\
  (forall s acc, 2 * length s + 2 <= fuel ->
     parse_elements fuel s acc <> OutOfFuel) /\
  (forall s acc, 2 * length s + 2 <= fuel ->
     parse_members fuel s acc <> OutOfFuel).
Proof.
  induction fuel as [|fuel (IHv & IHe & IHm)].
  - repeat split; intros; lia.
  - repeat split.
    + intros s Hf. cbn [parse_value].
      pose proof (skip_ws_le s) as Hs.
      destruct (skip_ws s) as [|c t]; [discriminate|]. simpl in Hs.
      destruct (Ascii.eqb c "[").
      { pose proof (skip_ws_le t) as Ht.
        destruct (skip_ws t) as [|x t']; [discriminate|].
        destruct (Ascii.eqb x "]"); [discriminate|].
        apply IHe. lia. }
      destruct (Ascii.eqb c "{").
      { pose proof (skip_ws_le t) as Ht.
        destruct (skip_ws t) as [|x t']; [discriminate|].
        destruct (Ascii.eqb x "}"); [discriminate|].
        apply IHm. lia. }
      destruct (Ascii.eqb c "034").
      { destruct (parse_chars t) as [[cs t']|]; discriminate. }
      destruct (Ascii.eqb c "t"); [apply lit_fuel|].
      destruct (Ascii.eqb c "f"); [apply lit_fuel|].
      destruct (Ascii.eqb c "n"); [apply lit_fuel|].
      destruct (parse_number (c :: t)) as [[n t']|]; discriminate.
    + intros s acc Hf. cbn [parse_elements].
      pose proof (IHv s ltac:(lia)) as Hv.
      destruct (parse_value fuel s) as [[v1 r1]| |] eqn:E;
        [|discriminate|congruence].
      apply parse_value_shrinks in E.
      pose proof (skip_ws_le r1) as Hs.
      destruct (skip_ws r1) as [|x r']; [discriminate|]. simpl in Hs.
      destruct (Ascii.eqb x ","); [apply IHe; lia|].
      destruct (Ascii.eqb x "]"); discriminate.
    + intros s acc Hf. cbn [parse_members].
      pose proof (skip_ws_le s) as Hs.
      destruct (skip_ws s) as [|q r0]; [discriminate|]. simpl in Hs.
      destruct (Ascii.eqb q "034"); [|discriminate].
      destruct (parse_chars r0) as [[k r1]|] eqn:Ek; [|discriminate].
      apply parse_chars_lt in Ek.
      pose proof (skip_ws_le r1) as Hs1.
      destruct (skip_ws r1) as [|colon r2]; [discriminate|]. simpl in Hs1.
      destruct (Ascii.eqb colon ":"); [|discriminate].
      pose proof (IHv r2 ltac:(lia)) as Hv.
      destruct (parse_value fuel r2) as [[v1 r3]| |] eqn:E;
        [|discriminate|congruence].
      apply parse_value_shrinks in E.
      pose proof (skip_ws_le r3) as Hs3.
      destruct (skip_ws r3) as [|x r4]; [discriminate|]. simpl in Hs3.
      destruct (Ascii.eqb x ","); [apply IHm; lia|].
      destruct (Ascii.eqb x "}"); discriminate.
Qed.

(** The parser never stops for lack of fuel: [JSON_parse] answers [None]
    only for a syntax error. *)
Theorem parse_text_total (s : list ascii) : parse_text s <> OutOfFuel.
Proof.
  unfold parse_text.
  pose proof (proj1 (parse_fuel (enough s)) s) as H.
  destruct (parse_value (enough s) s) as [[v r]| |].
  - destruct (skip_ws r); discriminate.
  - discriminate.
  - exfalso. apply H; [unfold enough; lia | reflexivity].
Qed.

Theorem JSON_parse_None (text : string) :
  JSON_parse text = None <->
  parse_text (list_ascii_of_string text) = SyntaxErr.
Proof.
  unfold JSON_parse.
  pose proof (parse_text_total (list_ascii_of_string text)) as H.
  destruct (parse_text (list_ascii_of_string text)); split; congruence.
Qed.

End JsonFacts.

(** ** Splitting a data URL *)

Module JsFacts.
Import Base64 Base64Facts Js.

Lemma split_no_comma (s : string) :
  no_comma s = true -> split "," s = [s].
Proof.
  induction s as [|c r IH]; simpl; [reflexivity|].
  intros H. apply andb_prop in H. destruct H as [Hc Hr].
  apply negb_true_iff in Hc. rewrite Hc, (IH Hr). reflexivity.
Qed.

Lemma split_at_comma (p r : string) :
  no_comma p = true ->
  split "," (p ++ String "," r) = p :: split "," r.
Proof.
  induction p as [|c p IH]; simpl; [reflexivity|].
  intros H. apply andb_prop in H. destruct H as [Hc Hp].
  apply negb_true_iff in Hc. rewrite Hc, (IH Hp). reflexivity.
Qed.

Lemma no_comma_app (a b : string) :
  no_comma (a ++ b) = no_comma a && no_comma b.
Proof.
  induction a as [|c a IH]; simpl; [reflexivity|].
  unfold no_comma in *. simpl. rewrite IH. now rewrite andb_assoc.
Qed.

Lemma append_assoc (a b c : string) : ((a ++ b) ++ c = a ++ (b ++ c))%string.
Proof. induction a as [|x a IH]; simpl; [reflexivity|now rewrite IH]. Qed.

Lemma alphabet_comma_free : forallb comma_free (pad :: alphabet) = true.
Proof. reflexivity. Qed.

Lemma char_of_sextet_comma_free (n : N) : comma_free (char_of_sextet n) = true.
Proof.
  unfold char_of_sextet.
  apply (proj1 (forallb_forall comma_free (pad :: alphabet))
           alphabet_comma_free).
  destruct (nth_in_or_default (N.to_nat n) alphabet pad) as [H|H].
  - now right.
  - left. now rewrite H.
Qed.

Lemma encode_comma_free (bs : list byte) :
  forallb comma_free (encode bs) = true.
Proof.
  induction bs as [|a|a b|a b c rest IH] using list_ind3;
    cbn [encode forallb];
    rewrite ?char_of_sextet_comma_free, ?IH; reflexivity.
Qed.

Lemma no_comma_of_list (l : list ascii) :
  no_comma (string_of_list_ascii l) = forallb comma_free l.
Proof.
  unfold no_comma.
  induction l as [|c l IH]; simpl; [reflexivity|]. now rewrite IH.
Qed.

(** Splitting the data URL at its commas leaves the Base64 text second,
    provided the blob's type has no comma of its own. *)
Lemma split_data_url (b : Blob) :
  no_comma (blob_type b) = true ->
  nth_error (split "," (data_url b)) 1
  = Some (string_of_list_ascii (encode (blob_bytes b))).
Proof.
  intros Hty. unfold data_url.
  replace ("data:" ++ blob_type b ++ ";base64," ++
             string_of_list_ascii (encode (blob_bytes b)))%string
    with (("data:" ++ blob_type b ++ ";base64") ++
            String "," (string_of_list_ascii (encode (blob_bytes b))))%string.
  2:{ rewrite !append_assoc. reflexivity. }
  rewrite split_at_comma.
  - rewrite split_no_comma; [reflexivity|].
    rewrite no_comma_of_list. apply encode_comma_free.
  - rewrite !no_comma_app, Hty. reflexivity.
Qed.

Lemma base64_decode_encode (bs : list byte) :
  base64_decode (string_of_list_ascii (encode bs)) = Some bs.
Proof.
  unfold base64_decode.
  rewrite list_ascii_of_string_of_list_ascii. apply decode_encode.
Qed.

End JsFacts.

(** ** The analysis client *)

Module GeminiServiceFacts.
Import Js Json GeminiService Spec JsFacts.

Lemma and_then_resolve {A B} (a : A) (k : A -> Promise B) :
  and_then (resolve a) k = k a.
Proof. unfold and_then, resolve. now destruct (k a). Qed.

(** The three functions at a runtime whose constructor throws: rejected
    with what it threw, nothing requested and nothing logged. *)
Lemma constructor_throws (rt : Runtime) (e : exn) (input : string)
  (audioBlob : Blob) :
  client rt = Throws e ->
  getWelcomeMessage rt = (Rejected e, []) /\
  analyzeTextTranscript rt input = (Rejected e, []) /\
  analyzeInterview rt audioBlob = (Rejected e, []).
Proof.
  intros H.
  unfold getWelcomeMessage, analyzeTextTranscript, analyzeInterview,
    new_GoogleGenAI.
  rewrite H. repeat split.
Qed.

(** Both analysis functions, unfolded at the way the backend call
    settles. *)
Lemma analyzeTextTranscript_settled (rt : Runtime) (ai : Backend)
  (input : string) :
  client rt = Returns ai ->
  analyzeTextTranscript rt input =
  match ai (textRequest input) with
  | Fulfilled response =>
      match parseResponse response with
      | (Fulfilled v, _) => (Fulfilled v, [GenerateContent (textRequest input)])
      | (Rejected e, _) =>
          (Rejected e,
           [GenerateContent (textRequest input);
            LoggedError "Gemini Text Analysis Error:" e])
      end
  | Rejected e =>
      (Rejected e,
       [GenerateContent (textRequest input);
        LoggedError "Gemini Text Analysis Error:" e])
  end.
Proof.
  intros Hc. unfold analyzeTextTranscript, new_GoogleGenAI.
  rewrite Hc, and_then_resolve.
  unfold generateContent, try_await, and_then, tell, log_error, reject.
  destruct (ai (textRequest input)) as [response|e]; [|reflexivity].
  unfold parseResponse, JSON_parse_or_throw, reject, resolve.
  destruct (text response) as [[|c r]|]; try reflexivity.
  destruct (JSON_parse (String c r)); reflexivity.
Qed.

Lemma analyzeInterview_settled (rt : Runtime) (ai : Backend)
  (audioBlob : Blob) :
  client rt = Returns ai ->
  readable rt audioBlob = true ->
  analyzeInterview rt audioBlob =
  match ai (interviewRequest audioBlob) with
  | Fulfilled response =>
      match parseResponse response with
      | (Fulfilled v, _) =>
          (Fulfilled v, [GenerateContent (interviewRequest audioBlob)])
      | (Rejected e, _) =>
          (Rejected e,
           [GenerateContent (interviewRequest audioBlob);
            LoggedError "Gemini Analysis Error:" e])
      end
  | Rejected e =>
      (Rejected e,
       [GenerateContent (interviewRequest audioBlob);
        LoggedError "Gemini Analysis Error:" e])
  end.
Proof.
  intros Hc Hr. unfold analyzeInterview, new_GoogleGenAI.
  rewrite Hc, and_then_resolve.
  unfold blobToBase64, readAsDataURL. rewrite Hr, and_then_resolve.
  unfold interviewRequest.
  unfold generateContent, try_await, and_then, tell, log_error, reject, resolve.
  destruct (ai _) as [response|e]; [|reflexivity].
  unfold parseResponse, JSON_parse_or_throw, reject, resolve.
  destruct (text response) as [[|c r]|]; try reflexivity.
  destruct (JSON_parse (String c r)); reflexivity.
Qed.

(** A blob that cannot be read: [analyzeInterview] is rejected with the
    reader's event before its [try], nothing requested and nothing logged. *)
Lemma analyzeInterview_unreadable (rt : Runtime) (ai : Backend)
  (audioBlob : Blob) :
  client rt = Returns ai ->
  readable rt audioBlob = false ->
  analyzeInterview rt audioBlob = (Rejected (ProgressEvent "error"), []).
Proof.
  intros Hc Hr. unfold analyzeInterview, new_GoogleGenAI.
  rewrite Hc, and_then_resolve.
  unfold blobToBase64, readAsDataURL. now rewrite Hr.
Qed.

Lemma getWelcomeMessage_settled (rt : Runtime) (ai : Backend) :
  client rt = Returns ai ->
  getWelcomeMessage rt =
  match ai welcomeRequest with
  | Fulfilled response =>
      (Fulfilled (or_else (text response) fallbackWelcome),
       [GenerateContent welcomeRequest])
  | Rejected e =>
      (Fulfilled fallbackWelcome,
       [GenerateContent welcomeRequest;
        LoggedError "Gemini Welcome Message Error:" e])
  end.
Proof.
  intros Hc. unfold getWelcomeMessage, new_GoogleGenAI.
  rewrite Hc, and_then_resolve.
  unfold generateContent, try_await, and_then, tell, log_error, resolve.
  destruct (ai welcomeRequest) as [response|e]; reflexivity.
Qed.

Lemma parseResponse_text (t : string) :
  t <> EmptyString ->
  parseResponse {| text := Some t |} = JSON_parse_or_throw t.
Proof. destruct t; [congruence | reflexivity]. Qed.

Lemma parseResponse_no_text (response : GenerateContentResponse) :
  truthy (text response) = false ->
  parseResponse response = (Rejected NoResponseText, []).
Proof.
  unfold parseResponse. destruct (text response) as [[|c r]|];
    [reflexivity | discriminate | reflexivity].
Qed.

Lemma requests_analyzeTextTranscript (rt : Runtime) (input : string) :
  requests (snd (analyzeTextTranscript rt input)) =
  match client rt with
  | Returns _ => [textRequest input]
  | Throws _ => []
  end.
Proof.
  destruct (client rt) as [ai|e] eqn:Hc.
  - rewrite (analyzeTextTranscript_settled rt ai) by assumption.
    destruct (ai (textRequest input)) as [response|e]; [|reflexivity].
    destruct (parseResponse response) as [[v|e] l]; reflexivity.
  - destruct (constructor_throws rt e input {| blob_bytes := []; blob_type := EmptyString |} Hc)
      as (_ & -> & _).
    reflexivity.
Qed.

Lemma requests_analyzeInterview (rt : Runtime) (audioBlob : Blob) :
  requests (snd (analyzeInterview rt audioBlob)) =
  match client rt with
  | Returns _ =>
      if readable rt audioBlob then [interviewRequest audioBlob] else []
  | Throws _ => []
  end.
Proof.
  destruct (client rt) as [ai|e] eqn:Hc.
  - destruct (readable rt audioBlob) eqn:Hr.
    + rewrite (analyzeInterview_settled rt ai) by assumption.
      destruct (ai (interviewRequest audioBlob)) as [response|e];
        [|reflexivity].
      destruct (parseResponse response) as [[v|e] l]; reflexivity.
    + now rewrite (analyzeInterview_unreadable rt ai).
  - destruct (constructor_throws rt e EmptyString audioBlob Hc)
      as (_ & _ & ->).
    reflexivity.
Qed.

Lemma requests_getWelcomeMessage (rt : Runtime) :
  requests (snd (getWelcomeMessage rt)) =
  match client rt with
  | Returns _ => [welcomeRequest]
  | Throws _ => []
  end.
Proof.
  destruct (client rt) as [ai|e] eqn:Hc.
  - rewrite (getWelcomeMessage_settled rt ai) by assumption.
    destruct (ai welcomeRequest) as [response|e]; reflexivity.
  - destruct (constructor_throws rt e EmptyString
                {| blob_bytes := []; blob_type := EmptyString |} Hc)
      as (-> & _).
    reflexivity.
Qed.

(** The payload of a blob whose type has no comma survives the trip. *)
Lemma interviewRequest_payload (audioBlob : Blob) :
  no_comma (blob_type audioBlob) = true ->
  exists d,
    interviewRequest audioBlob = audioRequest (Some d) /\
    base64_decode d = Some (blob_bytes audioBlob).
Proof.
  intros Hty.
  exists (string_of_list_ascii (Base64.encode (blob_bytes audioBlob))). split.
  - unfold interviewRequest. now rewrite split_data_url.
  - apply base64_decode_encode.
Qed.

(** The same for a blob built as [new Blob(chunks, { type: 'audio/wav' })]:
    the one request made for it carries the blob's bytes and the blob's own
    type; no request is made when the client cannot be built or the blob
    cannot be read. *)
Lemma wav_blob_round_trip (rt : Runtime) (chunks : list Blob) :
  let audioBlob := new_Blob chunks "audio/wav" in
  exists d,
    requests (snd (analyzeInterview rt audioBlob)) =
      match client rt with
      | Returns _ =>
          if readable rt audioBlob
          then [{| model := modelId;
                   contents :=
                     ContentsParts
                       [InlinePart {| mimeType := blob_type audioBlob;
                                      data := Some d |};
                        TextPart AudioAnalysisPrompt];
                   config :=
                     Some {| responseMimeType := "application/json" |} |}]
          else []
      | Throws _ => []
      end /\
    base64_decode d = Some (blob_bytes audioBlob) /\
    blob_type audioBlob = "audio/wav".
Proof.
  intros audioBlob.
  destruct (interviewRequest_payload audioBlob) as (d & Hreq & Hdec);
    [reflexivity|].
  exists d. repeat split; try assumption.
  rewrite requests_analyzeInterview, Hreq. reflexivity.
Qed.

(** Counterexample to C1 as stated: for the response document
    [only_summary] the result of [analyzeTextTranscript] is that document,
    whose [satellites] is undefined, not an empty sequence. *)
Lemma missing_fields_not_defaulted : ~ missing_fields_default.
Proof.
  intros claim.
  destruct (claim (serving (fun _ => answers only_summary))
              (fun _ => answers only_summary) "hello"
              {| blob_bytes := []; blob_type := "audio/wav" |} only_summary
              [("summary", JString "x")] "satellites")
    as ((v & Hv & Hget) & _).
  - reflexivity.
  - reflexivity.
  - reflexivity.
  - reflexivity.
  - reflexivity.
  - simpl. tauto.
  - reflexivity.
  - vm_compute in Hv. injection Hv as <-. discriminate Hget.
Qed.

(** C1, amended: when the response text parses as JSON, both analysis
    functions are fulfilled with the parsed document itself, so every
    property read on the result is the read on the document: a field the
    document lacks is undefined in the result, no container is put in its
    place, and no exception is thrown. *)
Theorem analysis_returns_parsed_document
  (rt : Runtime) (ai : Backend) (input : string) (audioBlob : Blob)
  (t : string) (v : json) :
  client rt = Returns ai ->
  readable rt audioBlob = true ->
  t <> EmptyString ->
  JSON_parse t = Some v ->
  ai (textRequest input) = answers t ->
  ai (interviewRequest audioBlob) = answers t ->
  fst (analyzeTextTranscript rt input) = Fulfilled v /\
  fst (analyzeInterview rt audioBlob) = Fulfilled v /\
  forall r field,
    fst (analyzeTextTranscript rt input) = Fulfilled r \/
    fst (analyzeInterview rt audioBlob) = Fulfilled r ->
    get r field = get v field.
Proof.
  intros Hc Hrd Ht Hv Htext Haudio.
  assert (Ha : fst (analyzeTextTranscript rt input) = Fulfilled v).
  { rewrite (analyzeTextTranscript_settled rt ai), Htext by assumption.
    unfold answers. rewrite parseResponse_text by assumption.
    unfold JSON_parse_or_throw. rewrite Hv. reflexivity. }
  assert (Hb : fst (analyzeInterview rt audioBlob) = Fulfilled v).
  { rewrite (analyzeInterview_settled rt ai), Haudio by assumption.
    unfold answers. rewrite parseResponse_text by assumption.
    unfold JSON_parse_or_throw. rewrite Hv. reflexivity. }
  repeat split; try assumption.
  intros r field [Hr|Hr]; congruence.
Qed.

Lemma analysis_returns_parsed_document_witness :
  fst (analyzeTextTranscript (serving (fun _ => answers only_summary)) "hello")
    = Fulfilled (JObject [("summary", JString "x")]) /\
  fst (analyzeInterview (serving (fun _ => answers only_summary))
         {| blob_bytes := []; blob_type := "audio/wav" |})
    = Fulfilled (JObject [("summary", JString "x")]).
Proof.
  destruct (analysis_returns_parsed_document
              (serving (fun _ => answers only_summary))
              (fun _ => answers only_summary) "hello"
              {| blob_bytes := []; blob_type := "audio/wav" |}
              only_summary (JObject [("summary", JString "x")]))
    as (H1 & H2 & _).
  - reflexivity.
  - reflexivity.
  - discriminate.
  - reflexivity.
  - reflexivity.
  - reflexivity.
  - split; assumption.
Defined.

(** C2: when the backend call succeeds with empty or absent text, both
    [analyzeTextTranscript] and [analyzeInterview] are rejected with the
    error thrown for that case, [NoResponseText]; neither is fulfilled
    with a result. *)
Theorem no_text_is_failure
  (rt : Runtime) (ai : Backend) (input : string) (audioBlob : Blob)
  (r1 r2 : GenerateContentResponse) :
  client rt = Returns ai ->
  readable rt audioBlob = true ->
  ai (textRequest input) = Fulfilled r1 -> truthy (text r1) = false ->
  ai (interviewRequest audioBlob) = Fulfilled r2 -> truthy (text r2) = false ->
  fst (analyzeTextTranscript rt input) = Rejected NoResponseText /\
  fst (analyzeInterview rt audioBlob) = Rejected NoResponseText /\
  (forall v, fst (analyzeTextTranscript rt input) <> Fulfilled v) /\
  (forall v, fst (analyzeInterview rt audioBlob) <> Fulfilled v).
Proof.
  intros Hc Hrd H1 T1 H2 T2.
  assert (Ha : fst (analyzeTextTranscript rt input) = Rejected NoResponseText).
  { rewrite (analyzeTextTranscript_settled rt ai), H1 by assumption.
    rewrite parseResponse_no_text by assumption. reflexivity. }
  assert (Hb : fst (analyzeInterview rt audioBlob) = Rejected NoResponseText).
  { rewrite (analyzeInterview_settled rt ai), H2 by assumption.
    rewrite parseResponse_no_text by assumption. reflexivity. }
  repeat split; try assumption; intros v; congruence.
Qed.

Lemma no_text_is_failure_witness :
  fst (analyzeTextTranscript
         (serving
            (fun r => match contents r with
                      | ContentsPrompt _ => answers EmptyString
                      | ContentsParts _ => Fulfilled {| text := None |}
                      end)) "hello")
    = Rejected NoResponseText /\
  fst (analyzeInterview
         (serving
            (fun r => match contents r with
                      | ContentsPrompt _ => answers EmptyString
                      | ContentsParts _ => Fulfilled {| text := None |}
                      end))
         {| blob_bytes := ["001"%byte]; blob_type := "audio/wav" |})
    = Rejected NoResponseText.
Proof.
  destruct (no_text_is_failure
              (serving
                 (fun r => match contents r with
                           | ContentsPrompt _ => answers EmptyString
                           | ContentsParts _ => Fulfilled {| text := None |}
                           end))
              (fun r => match contents r with
                        | ContentsPrompt _ => answers EmptyString
                        | ContentsParts _ => Fulfilled {| text := None |}
                        end) "hello"
              {| blob_bytes := ["001"%byte]; blob_type := "audio/wav" |}
              {| text := Some EmptyString |} {| text := None |})
    as (H1 & H2 & _); try reflexivity.
  split; [exact H1 | exact H2].
Defined.

(** Counterexample to C3 as stated: the response text [42] is JSON but no
    result document, and [analyzeTextTranscript] is fulfilled with it. *)
Lemma malformed_not_failure : ~ malformed_is_failure.
Proof.
  intros claim.
  destruct (claim (serving (fun _ => answers "42")) (fun _ => answers "42")
              "hello" {| blob_bytes := []; blob_type := "audio/wav" |} "42")
    as ((e & He & _) & _).
  - reflexivity.
  - reflexivity.
  - reflexivity.
  - reflexivity.
  - discriminate.
  - intros v Hv. vm_compute in Hv. injection Hv as <-. reflexivity.
  - vm_compute in He. discriminate He.
Qed.

(** C3, amended: when the response text is not syntactically valid JSON,
    both analysis functions are rejected with the [SyntaxError] thrown by
    [JSON.parse], logged and thrown on to the caller; it is not the error
    for a response without text. *)
Theorem unparseable_is_syntax_error
  (rt : Runtime) (ai : Backend) (input : string) (audioBlob : Blob)
  (t : string) :
  client rt = Returns ai ->
  readable rt audioBlob = true ->
  t <> EmptyString ->
  JSON_parse t = None ->
  ai (textRequest input) = answers t ->
  ai (interviewRequest audioBlob) = answers t ->
  analyzeTextTranscript rt input =
    (Rejected SyntaxError,
     [GenerateContent (textRequest input);
      LoggedError "Gemini Text Analysis Error:" SyntaxError]) /\
  analyzeInterview rt audioBlob =
    (Rejected SyntaxError,
     [GenerateContent (interviewRequest audioBlob);
      LoggedError "Gemini Analysis Error:" SyntaxError]) /\
  SyntaxError <> NoResponseText.
Proof.
  intros Hc Hrd Ht Hp Htext Haudio. repeat split.
  - rewrite (analyzeTextTranscript_settled rt ai), Htext by assumption.
    unfold answers. rewrite parseResponse_text by assumption.
    unfold JSON_parse_or_throw. rewrite Hp. reflexivity.
  - rewrite (analyzeInterview_settled rt ai), Haudio by assumption.
    unfold answers. rewrite parseResponse_text by assumption.
    unfold JSON_parse_or_throw. rewrite Hp. reflexivity.
  - discriminate.
Qed.

Lemma unparseable_is_syntax_error_witness :
  fst (analyzeTextTranscript (serving (fun _ => answers "Sorry, I cannot"))
         "hello")
    = Rejected SyntaxError /\
  fst (analyzeInterview (serving (fun _ => answers "Sorry, I cannot"))
         {| blob_bytes := []; blob_type := "audio/wav" |})
    = Rejected SyntaxError.
Proof.
  destruct (unparseable_is_syntax_error
              (serving (fun _ => answers "Sorry, I cannot"))
              (fun _ => answers "Sorry, I cannot") "hello"
              {| blob_bytes := []; blob_type := "audio/wav" |}
              "Sorry, I cannot")
    as (H1 & H2 & _).
  - reflexivity.
  - reflexivity.
  - discriminate.
  - reflexivity.
  - reflexivity.
  - reflexivity.
  - rewrite H1, H2. split; reflexivity.
Defined.

(** Counterexample to C4 as stated: with no key in the environment and an
    SDK whose constructor refuses that, [getWelcomeMessage] is rejected;
    the constructor call stands before the [try]. *)
Lemma welcome_fails_without_client : ~ welcome_never_fails.
Proof.
  intros claim.
  destruct (claim (keyless (fun _ => answers "Hello"))) as (msg & H).
  vm_compute in H. discriminate H.
Qed.

(** C4, amended: once its client is built, [getWelcomeMessage] is
    fulfilled whatever the backend does: with the response text when that
    is not empty, and with the one fixed fallback string when the call
    throws or the text is empty or absent. *)
Theorem getWelcomeMessage_never_fails (rt : Runtime) (ai : Backend) :
  client rt = Returns ai ->
  fst (getWelcomeMessage rt) =
  Fulfilled
    match ai welcomeRequest with
    | Fulfilled response =>
        match text response with
        | Some (String c r) => String c r
        | Some EmptyString => fallbackWelcome
        | None => fallbackWelcome
        end
    | Rejected _ => fallbackWelcome
    end.
Proof.
  intros Hc. rewrite (getWelcomeMessage_settled rt ai Hc).
  destruct (ai welcomeRequest) as [response|e]; [|reflexivity].
  unfold or_else. destruct (text response) as [[|c r]|]; reflexivity.
Qed.

Lemma getWelcomeMessage_never_fails_witness :
  fst (getWelcomeMessage (serving (fun _ => Rejected (Error "offline"))))
    = Fulfilled fallbackWelcome /\
  fst (getWelcomeMessage (serving (fun _ => answers EmptyString)))
    = Fulfilled fallbackWelcome /\
  fst (getWelcomeMessage (serving (fun _ => answers "Hello")))
    = Fulfilled "Hello".
Proof.
  split; [|split].
  - exact (getWelcomeMessage_never_fails
             (serving (fun _ => Rejected (Error "offline")))
             (fun _ => Rejected (Error "offline")) eq_refl).
  - exact (getWelcomeMessage_never_fails
             (serving (fun _ => answers EmptyString))
             (fun _ => answers EmptyString) eq_refl).
  - exact (getWelcomeMessage_never_fails
             (serving (fun _ => answers "Hello"))
             (fun _ => answers "Hello") eq_refl).
Defined.

(** C9: every backend call of [analyzeTextTranscript] and of
    [analyzeInterview] asks for the response type [application/json]: each
    makes the one call shown once its client is built (and the blob read),
    and none otherwise; the one call of [getWelcomeMessage] has no [config]
    at all. *)
Theorem json_mode_requested (rt : Runtime) (input : string) (audioBlob : Blob) :
  requests (snd (analyzeTextTranscript rt input)) =
    match client rt with
    | Returns _ => [textRequest input]
    | Throws _ => []
    end /\
  config (textRequest input)
    = Some {| responseMimeType := "application/json" |} /\
  requests (snd (analyzeInterview rt audioBlob)) =
    match client rt with
    | Returns _ =>
        if readable rt audioBlob then [interviewRequest audioBlob] else []
    | Throws _ => []
    end /\
  config (interviewRequest audioBlob)
    = Some {| responseMimeType := "application/json" |} /\
  requests (snd (getWelcomeMessage rt)) =
    match client rt with
    | Returns _ => [welcomeRequest]
    | Throws _ => []
    end /\
  config welcomeRequest = None.
Proof.
  repeat split.
  - apply requests_analyzeTextTranscript.
  - apply requests_analyzeInterview.
  - apply requests_getWelcomeMessage.
Qed.

End GeminiServiceFacts.

(** ** The recorder *)

Module RecorderFacts.
Import Js Recorder.

Lemma nth_error_update {A} (f : A -> A) (l : list A) : forall i x,
  nth_error l i = Some x -> nth_error (update i f l) i = Some (f x).
Proof.
  induction l as [|y l IH]; intros [|i] x H; simpl in *; try discriminate.
  - now injection H as ->.
  - now apply IH.
Qed.

Lemma stop_all_subset (ts : list track) : forall l x,
  In x (stop_all ts l) -> In x l /\ ~ In x ts.
Proof.
  induction ts as [|t ts IH]; intros l x H; simpl in *.
  - tauto.
  - apply IH in H. destruct H as [H Hts].
    apply in_remove in H. destruct H as [Hl Hne].
    split; [assumption|]. intros [->|Hin]; [congruence|tauto].
Qed.

Lemma forEach_track_stop (ts : list track) : forall c b,
  forEach ts track_stop {| comp := c; browser := b |} =
  (Fulfilled tt,
   {| comp := c; browser := with_live (stop_all ts (live b)) b |},
   map TrackStop ts).
Proof.
  induction ts as [|t ts IH]; intros c b.
  - destruct b; reflexivity.
  - cbn [forEach]. unfold bind at 1.
    unfold track_stop at 1, bind, emit, on_browser. cbn [comp browser].
    rewrite IH. destruct b; reflexivity.
Qed.

Lemma update_last {A} (f : A -> A) (l : list A) (x : A) :
  update (length l) f (l ++ [x]) = l ++ [f x].
Proof. induction l as [|y l IH]; simpl; [reflexivity | now rewrite IH]. Qed.

Lemma nth_error_last {A} (l : list A) (x : A) :
  nth_error (l ++ [x]) (length l) = Some x.
Proof. induction l as [|y l IH]; simpl; [reflexivity | assumption]. Qed.

(** What [startRecording] does once the microphone is granted. *)
Lemma startRecording_granted (c : Component) (b : Browser) (s : MediaStream) :
  startRecording (Fulfilled s) {| comp := c; browser := b |} =
  (Fulfilled tt,
   {| comp :=
        {| isRecording := true; duration := duration c; stream := Some s;
           mediaRecorderRef := Some (length (recorders b)); chunksRef := [];
           timerRef := Some (next_interval b) |};
      browser :=
        {| recorders :=
             recorders b ++
               [{| rec_stream := s; rec_state := recording; rec_buffer := [];
                   ondataavailable := true; onstop := None |}];
           intervals := intervals b ++ [next_interval b];
           next_interval := S (next_interval b);
           live := live b ++ getTracks s;
           tasks := tasks b;
           recorder_mime := recorder_mime b |} |},
   [SetStream (Some s); RecorderStart (length (recorders b));
    SetIsRecording true; SetInterval (next_interval b)]).
Proof.
  destruct c as [isR dur st ref chunks timer].
  destruct b as [recs ivs nxt lv tks mime].
  unfold startRecording, try_catch, getUserMedia, setStream, new_MediaRecorder,
    on_recorder, MediaRecorder_start, the_recorder, setIsRecording,
    setInterval, bind, get, emit, on_comp, on_browser, ret.
  cbn [comp browser recorders with_recorders with_live live intervals
       next_interval tasks recorder_mime].
  rewrite update_last, nth_error_last.
  cbn -[length app]. rewrite update_last. reflexivity.
Qed.

Ltac fields :=
  cbn [comp browser isRecording duration stream mediaRecorderRef chunksRef
       timerRef recorders intervals next_interval live tasks recorder_mime
       with_isRecording with_duration with_stream with_mediaRecorderRef
       with_chunksRef with_timerRef with_recorders with_intervals with_live
       with_tasks] in *.

Lemma update_update {A} (f g : A -> A) (l : list A) : forall i,
  update i g (update i f l) = update i (fun x => g (f x)) l.
Proof.
  induction l as [|y l IH]; intros [|i]; simpl; try reflexivity.
  now rewrite IH.
Qed.

(** What [stopRecording] does while a recording is on. *)
Lemma stopRecording_recording (c : Component) (b : Browser) (r : nat)
  (m : MediaRecorder) :
  isRecording c = true ->
  mediaRecorderRef c = Some r ->
  nth_error (recorders b) r = Some m ->
  rec_state m = recording ->
  stopRecording {| comp := c; browser := b |} =
  (Fulfilled tt,
   {| comp := with_isRecording false c;
      browser :=
        {| recorders :=
             update r
               (fun x =>
                  with_onstop {| seen_stream := stream c;
                                 seen_duration := duration c |}
                    (with_state inactive [] x))
               (recorders b);
           intervals :=
             match running_timer (timerRef c) with
             | Some id => remove Nat.eq_dec id (intervals b)
             | None => intervals b
             end;
           next_interval := next_interval b;
           live := live b;
           tasks :=
             tasks b ++
               [DataAvailable r {| blob_bytes := rec_buffer m;
                                   blob_type := recorder_mime b |};
                StopEvent r];
           recorder_mime := recorder_mime b |} |},
   RecorderStop r :: SetIsRecording false ::
     match running_timer (timerRef c) with
     | Some id => [ClearInterval id]
     | None => []
     end).
Proof.
  destruct c as [isR dur st ref chunks timer].
  destruct b as [recs ivs nxt lv tks mime].
  cbn [isRecording mediaRecorderRef recorders stream duration timerRef
       intervals next_interval live tasks recorder_mime].
  intros -> -> Hm Hst.
  unfold stopRecording, bind at 1, get.
  cbn [comp browser isRecording mediaRecorderRef].
  unfold MediaRecorder_stop, the_recorder, bind, get.
  cbn [comp browser recorders]. rewrite Hm. unfold ret. rewrite Hst.
  unfold emit, on_recorder, on_browser, setIsRecording, bind, emit, on_comp.
  cbn -[update remove]. rewrite update_update.
  destruct (running_timer timer) as [id|]; reflexivity.
Qed.

(** Delivering the two events a stopped recorder queued. *)
Lemma run_tasks_stopped (c : Component) (b : Browser) (r : nat)
  (m : MediaRecorder) (h : OnStop) (data : Blob) :
  tasks b = [DataAvailable r data; StopEvent r] ->
  nth_error (recorders b) r = Some m ->
  ondataavailable m = true ->
  onstop m = Some h ->
  let chunks := chunks_with data (chunksRef c) in
  let ts := tracks_of (seen_stream h) in
  run_tasks {| comp := c; browser := b |} =
  (Fulfilled tt,
   {| comp := with_stream None (with_chunksRef chunks c);
      browser := with_live (stop_all ts (live b)) (with_tasks [] b) |},
   map TrackStop ts ++
     [SetStream None; OnSave (new_Blob chunks "audio/wav") (seen_duration h)]).
Proof.
  destruct c as [isR dur st ref chunks0 timer].
  destruct b as [recs ivs nxt lv tks mime].
  intros Ht Hm Hda Hon chunks ts.
  cbn [tasks recorders chunksRef live] in *. subst tks.
  unfold run_tasks, bind at 1, get. fields.
  unfold on_browser, bind at 1. fields.
  cbn [forEach]. unfold bind at 1.
  unfold dispatch at 1, bind at 1, get. fields.
  rewrite Hm. fields. rewrite Hda.
  unfold ondataavailable_handler.
  subst chunks. unfold chunks_with, on_comp at 1, ret at 1.
  destruct (0 <? size data)%nat; fields.
  all: unfold bind at 1.
  all: unfold dispatch at 1, bind at 1, get; fields.
  all: rewrite Hm; fields; rewrite Hon.
  all: unfold onstop_handler, bind at 1, get; fields.
  all: unfold bind at 1.
  all: replace (match seen_stream h with
                | Some s => forEach (getTracks s) track_stop
                | None => ret tt
                end) with (forEach ts track_stop)
         by (subst ts; unfold tracks_of; destruct (seen_stream h); reflexivity).
  all: rewrite forEach_track_stop.
  all: unfold setStream, onSave, bind, emit, on_comp, ret.
  all: fields; cbn [app]; rewrite !app_nil_r; reflexivity.
Qed.

Lemma reported_fulfilled (m : M unit) (w w1 : World) (l : list effect) :
  m w = (Fulfilled tt, w1, l) -> reported m w = (Fulfilled tt, w1, l).
Proof. intros H. unfold reported, try_catch. now rewrite H. Qed.

Lemma run_app (a b : list event) (w : World) :
  run (a ++ b) w = (run a ;; run b) w.
Proof.
  revert w. induction a as [|e a IH]; intros w.
  - cbn [app]. unfold run at 2, bind. cbn [forEach]. unfold ret.
    destruct (run b w) as [[o w2] l2]. reflexivity.
  - cbn [app]. unfold run in *. cbn [forEach]. unfold bind in *.
    destruct (handle e w) as [[[[]|x] w1] l1]; [|reflexivity].
    rewrite IH.
    destruct (forEach a handle w1) as [[[[]|y] w2] l2]; [|reflexivity].
    destruct (forEach b handle w2) as [[o w3] l3].
    now rewrite app_assoc.
Qed.

Lemma run_ticks (id k : nat) : forall c b,
  existsb (Nat.eqb id) (intervals b) = true ->
  run (repeat (IntervalFired id) k) {| comp := c; browser := b |} =
  (Fulfilled tt,
   {| comp := with_duration (duration c + k) c; browser := b |},
   repeat SetDuration_succ k).
Proof.
  induction k as [|k IH]; intros c b Hid.
  - destruct c. cbn. now rewrite Nat.add_0_r.
  - cbn [repeat]. unfold run in *. cbn [forEach]. unfold bind at 1.
    unfold handle at 1, bind at 1, get. fields. rewrite Hid.
    unfold setDuration_succ, bind, emit, on_comp. fields.
    rewrite IH by assumption.
    destruct c as [isR dur st ref chunks timer]. fields. cbn [app].
    replace (dur + 1 + k) with (dur + S k) by lia. reflexivity.
Qed.

Lemma saves_app (a b : list effect) : saves (a ++ b) = saves a ++ saves b.
Proof.
  induction a as [|e a IH]; [reflexivity|].
  destruct e; cbn [app saves]; rewrite ?IH; reflexivity.
Qed.

Lemma saves_track_stops (ts : list track) : saves (map TrackStop ts) = [].
Proof. induction ts; [reflexivity | assumption]. Qed.

Lemma saves_ticks (k : nat) : saves (repeat SetDuration_succ k) = [].
Proof. induction k; [reflexivity | assumption]. Qed.

Lemma existsb_last (id : nat) (l : list nat) :
  existsb (Nat.eqb id) (l ++ [id]) = true.
Proof.
  rewrite existsb_app. cbn. rewrite Nat.eqb_refl. now rewrite orb_true_r.
Qed.

Lemma stop_then_deliver (c : Component) (b : Browser) (r : nat)
  (m : MediaRecorder) :
  isRecording c = true ->
  mediaRecorderRef c = Some r ->
  nth_error (recorders b) r = Some m ->
  rec_state m = recording ->
  ondataavailable m = true ->
  tasks b = [] ->
  let data := {| blob_bytes := rec_buffer m; blob_type := recorder_mime b |} in
  let chunks := chunks_with data (chunksRef c) in
  let ts := tracks_of (stream c) in
  exists w1 w2,
    stopRecording {| comp := c; browser := b |} =
      (Fulfilled tt, w1,
       RecorderStop r :: SetIsRecording false ::
         match running_timer (timerRef c) with
         | Some id => [ClearInterval id]
         | None => []
         end) /\
    run_tasks w1 =
      (Fulfilled tt, w2,
       map TrackStop ts ++
         [SetStream None; OnSave (new_Blob chunks "audio/wav") (duration c)]) /\
    comp w2 = with_stream None (with_chunksRef chunks (with_isRecording false c)) /\
    live (browser w2) = stop_all ts (live b) /\
    tasks (browser w2) = [] /\
    next_interval (browser w2) = next_interval b.
Proof.
  intros HisR Href Hm Hst Hda Htasks data chunks ts.
  rewrite (stopRecording_recording c b r m) by assumption.
  rewrite Htasks. cbn [app].
  set (h := {| seen_stream := stream c; seen_duration := duration c |}).
  set (b1 := {| recorders := update r _ (recorders b); intervals := _;
                next_interval := _; live := _; tasks := _;
                recorder_mime := _ |}).
  assert (Hm1 : nth_error (recorders b1) r
                = Some (with_onstop h (with_state inactive [] m))).
  { subst b1. fields.
    apply (nth_error_update
             (fun x => with_onstop h (with_state inactive [] x))).
    exact Hm. }
  pose proof (run_tasks_stopped (with_isRecording false c) b1 r _ h data
                eq_refl Hm1 Hda eq_refl) as Hrun.
  cbv zeta in Hrun.
  eexists. eexists. split; [reflexivity|]. split.
  { rewrite Hrun. subst chunks ts h. destruct c; reflexivity. }
  repeat split; subst chunks ts h b1; destruct c; reflexivity.
Qed.








(** C7: [stopRecording] called while no recording is on (never started:
    no recorder in the ref; or stopped: [isRecording] false) returns
    normally, calls nothing and leaves the component and the browser as they
    were. *)
Theorem stop_when_idle_is_noop (w : World) :
  isRecording (comp w) = false \/ mediaRecorderRef (comp w) = None ->
  stopRecording w = (Fulfilled tt, w, []) /\
  handle StopClicked w = (Fulfilled tt, w, []).
Proof.
  intros H.
  assert (Hstop : stopRecording w = (Fulfilled tt, w, [])).
  { unfold stopRecording, bind, get, ret.
    destruct H as [H|H]; rewrite H.
    - destruct (mediaRecorderRef (comp w)); reflexivity.
    - reflexivity. }
  split; [exact Hstop|]. now apply reported_fulfilled.
Qed.

Lemma stop_when_idle_is_noop_witness :
  stopRecording (initial "audio/webm")
    = (Fulfilled tt, initial "audio/webm", []) /\
  fst (run (session {| getTracks := [7] |} 1 2 ++ [StopClicked])
         (initial "audio/webm"))
    = fst (run (session {| getTracks := [7] |} 1 2) (initial "audio/webm")).
Proof.
  split.
  - apply (stop_when_idle_is_noop (initial "audio/webm")). left. reflexivity.
  - vm_compute. reflexivity.
Defined.

(** C8: when [getUserMedia] rejects (access refused, no device),
    [startRecording] logs the error and shows the alert, ends normally, and
    leaves the whole state as it was: [isRecording], [stream], the timer
    and everything else; a start that is granted afterwards goes as if the
    refusal had not happened. *)
Theorem start_refused_keeps_state (w : World) (err : exn) :
  startRecording (Rejected err) w =
    (Fulfilled tt, w,
     [ConsoleError "Error accessing microphone:" err;
      Alert "Microphone access denied. Please allow microphone permissions."])
  /\
  handle (StartClicked (Rejected err)) w =
    (Fulfilled tt, w,
     [ConsoleError "Error accessing microphone:" err;
      Alert "Microphone access denied. Please allow microphone permissions."])
  /\
  forall s,
    snd (fst (run [StartClicked (Rejected err); StartClicked (Fulfilled s)] w))
    = snd (fst (run [StartClicked (Fulfilled s)] w)).
Proof.
  assert (H : startRecording (Rejected err) w =
    (Fulfilled tt, w,
     [ConsoleError "Error accessing microphone:" err;
      Alert "Microphone access denied. Please allow microphone permissions."])).
  { reflexivity. }
  assert (H' := reported_fulfilled _ _ _ _ H).
  split; [exact H|]. split; [exact H'|].
  intros s. unfold run. cbn [forEach]. unfold bind at 1.
  change (reported (startRecording (Rejected err)) w)
    with (handle (StartClicked (Rejected err)) w) in H'.
  rewrite H'.
  destruct ((handle (StartClicked (Fulfilled s));; ret tt) w) as [[o w'] l].
  reflexivity.
Qed.

Lemma handle_start_granted (c : Component) (b : Browser) (s : MediaStream) :
  handle (StartClicked (Fulfilled s)) {| comp := c; browser := b |} =
  startRecording (Fulfilled s) {| comp := c; browser := b |}.
Proof.
  cbn [handle]. unfold reported, try_catch.
  rewrite startRecording_granted. reflexivity.
Qed.

(** One recording from a world with no event pending: [onSave] is called
    once, with the seconds counted before plus the seconds of this
    recording. *)
Lemma session_saves (c : Component) (b : Browser) (s : MediaStream) (k : nat) :
  tasks b = [] ->
  exists w tr blob,
    run (session s (next_interval b) k) {| comp := c; browser := b |}
      = (Fulfilled tt, w, tr) /\
    saves tr = [(blob, duration c + k)] /\
    duration (comp w) = duration c + k /\
    tasks (browser w) = [] /\
    next_interval (browser w) = S (next_interval b).
Proof.
  intros Htasks.
  unfold session.
  change (StartClicked (Fulfilled s) ::
            repeat (IntervalFired (next_interval b)) k ++ [StopClicked; TasksRun])
    with ([StartClicked (Fulfilled s)] ++
            repeat (IntervalFired (next_interval b)) k ++ [StopClicked; TasksRun]).
  rewrite run_app. unfold bind at 1.
  unfold run at 1. cbn [forEach]. unfold bind at 1.
  rewrite handle_start_granted, startRecording_granted.
  unfold ret at 1. rewrite run_app. unfold bind at 1.
  rewrite run_ticks by (cbn [intervals]; apply existsb_last).
  set (c1 := with_duration _ _). set (b1 := {| recorders := _ ++ _;
    intervals := _; next_interval := _; live := _; tasks := _;
    recorder_mime := _ |}).
  destruct (stop_then_deliver c1 b1 (length (recorders b))
              {| rec_stream := s; rec_state := recording; rec_buffer := [];
                 ondataavailable := true; onstop := None |})
    as (w1 & w2 & Hstop & Hrun & Hcomp & _ & Htasks2 & Hnext);
    try reflexivity.
  { subst b1. cbn [recorders]. apply nth_error_last. }
  { subst b1. cbn [tasks]. exact Htasks. }
  unfold run. cbn [forEach]. unfold bind at 1.
  cbn [handle]. rewrite (reported_fulfilled _ _ _ _ Hstop).
  unfold bind at 1. rewrite (reported_fulfilled _ _ _ _ Hrun).
  unfold ret. eexists. eexists. eexists.
  split; [reflexivity|]. split.
  { rewrite !saves_app, saves_ticks.
    cbn [saves app].
    replace (saves match running_timer (timerRef c1) with
                   | Some id => [ClearInterval id]
                   | None => []
                   end) with (@nil (Blob * nat))
      by (destruct (running_timer (timerRef c1)); reflexivity).
    rewrite saves_track_stops. cbn [saves app].
    subst c1. cbn [duration with_duration]. reflexivity. }
  rewrite Hcomp, Htasks2, Hnext. subst c1 b1. repeat split.
Qed.

Lemma sessions_saves (l : list (MediaStream * nat)) : forall c b,
  tasks b = [] ->
  exists w tr,
    run (sessions (next_interval b) l) {| comp := c; browser := b |}
      = (Fulfilled tt, w, tr) /\
    map snd (saves tr) = running_totals (duration c) (map snd l).
Proof.
  induction l as [|[s k] l IH]; intros c b Htasks.
  - eexists. eexists. split; reflexivity.
  - cbn [sessions map snd running_totals].
    destruct (session_saves c b s k Htasks)
      as (w1 & tr1 & blob & Hrun1 & Hsaves1 & Hdur & Htasks1 & Hnext).
    destruct w1 as [c1 b1]. fields.
    destruct (IH c1 b1 Htasks1) as (w2 & tr2 & Hrun2 & Hsaves2).
    rewrite Hnext in Hrun2.
    rewrite run_app. unfold bind. rewrite Hrun1, Hrun2.
    eexists. eexists. split; [reflexivity|].
    rewrite saves_app, map_app, Hsaves1, Hsaves2, Hdur. reflexivity.
Qed.

(** C10: [startRecording] never touches the seconds counter, so over the
    recordings made by one mounted component each [onSave] gets the seconds
    of all recordings so far: [n1], then [n1 + n2], and so on. *)
Theorem duration_accumulates :
  (forall gum w,
     duration (comp (snd (fst (startRecording gum w)))) = duration (comp w)) /\
  (forall mime l, exists w tr,
     run (sessions 1 l) (initial mime) = (Fulfilled tt, w, tr) /\
     map snd (saves tr) = running_totals 0 (map snd l)) /\
  (forall mime s1 s2 n1 n2, exists w tr,
     run (session s1 1 n1 ++ session s2 2 n2) (initial mime)
       = (Fulfilled tt, w, tr) /\
     map snd (saves tr) = [n1; n1 + n2]).
Proof.
  split; [|split].
  - intros [s|e] [c b].
    + rewrite startRecording_granted. reflexivity.
    + reflexivity.
  - intros mime l. apply (sessions_saves l mounted (fresh mime)). reflexivity.
  - intros mime s1 s2 n1 n2.
    destruct (sessions_saves [(s1, n1); (s2, n2)] mounted (fresh mime) eq_refl)
      as (w & tr & Hrun & Hsaves).
    exists w, tr. split; [|exact Hsaves].
    rewrite <- Hrun. cbn [sessions fresh next_interval].
    now rewrite app_nil_r.
Qed.

Lemma wav_saves_app (a b : list effect) :
  wav_saves a -> wav_saves b -> wav_saves (a ++ b).
Proof.
  unfold wav_saves. rewrite saves_app. intros. now apply Forall_app.
Qed.

Lemma keeps_ret {A} (a : A) : keeps (ret a).
Proof. intros w. constructor. Qed.

Lemma keeps_throw {A} (e : exn) : keeps (@throw A e).
Proof. intros w. constructor. Qed.

Lemma keeps_get : keeps get.
Proof. intros w. constructor. Qed.

Lemma keeps_on_comp (f : Component -> Component) : keeps (on_comp f).
Proof. intros w. constructor. Qed.

Lemma keeps_on_browser (f : Browser -> Browser) : keeps (on_browser f).
Proof. intros w. constructor. Qed.

Lemma keeps_emit (e : effect) : wav_saves [e] -> keeps (emit e).
Proof. intros H w. exact H. Qed.

Lemma keeps_bind {A B} (m : M A) (k : A -> M B) :
  keeps m -> (forall a, keeps (k a)) -> keeps (bind m k).
Proof.
  intros Hm Hk w. unfold bind. specialize (Hm w).
  destruct (m w) as [[[a|e] w1] l1]; cbn [snd] in *; [|assumption].
  specialize (Hk a w1). destruct (k a w1) as [[o w2] l2]. cbn [snd] in *.
  now apply wav_saves_app.
Qed.

Lemma keeps_try_catch {A} (m : M A) (h : exn -> M A) :
  keeps m -> (forall e, keeps (h e)) -> keeps (try_catch m h).
Proof.
  intros Hm Hh w. unfold try_catch. specialize (Hm w).
  destruct (m w) as [[[a|e] w1] l1]; cbn [snd] in *; [assumption|].
  specialize (Hh e w1). destruct (h e w1) as [[o w2] l2]. cbn [snd] in *.
  now apply wav_saves_app.
Qed.

Lemma keeps_forEach {A} (l : list A) (f : A -> M unit) :
  (forall x, keeps (f x)) -> keeps (forEach l f).
Proof.
  intros Hf. induction l as [|x l IH]; cbn [forEach].
  - apply keeps_ret.
  - apply keeps_bind; [apply Hf | intros _; exact IH].
Qed.

Ltac keeps_step :=
  match goal with
  | |- keeps (ret _) => apply keeps_ret
  | |- keeps (throw _) => apply keeps_throw
  | |- keeps get => apply keeps_get
  | |- keeps (on_comp _) => apply keeps_on_comp
  | |- keeps (on_browser _) => apply keeps_on_browser
  | |- keeps (emit _) =>
      apply keeps_emit; unfold wav_saves; cbn [saves];
      repeat constructor; eexists; reflexivity
  | |- keeps (bind _ _) => apply keeps_bind; [|intros]
  | |- keeps (try_catch _ _) => apply keeps_try_catch; [|intros]
  | |- keeps (forEach _ _) => apply keeps_forEach; intros
  | |- keeps (match ?x with _ => _ end) => destruct x
  end.

Ltac keeps_all :=
  repeat first
    [ keeps_step
    | progress unfold startRecording, stopRecording, onstop_handler,
        ondataavailable_handler, dispatch, run_tasks, reported, setStream,
        setIsRecording, setDuration_succ, getUserMedia, new_MediaRecorder,
        the_recorder, on_recorder, MediaRecorder_start, MediaRecorder_stop,
        setInterval, clearInterval, track_stop, console_error, alert,
        onSave ].

Lemma keeps_handle (ev : event) : keeps (handle ev).
Proof. destruct ev; cbn [handle]; keeps_all. Qed.

Theorem run_saves_wav (evs : list event) (w : World) (blob : Blob) (d : nat) :
  In (blob, d) (saves (snd (run evs w))) ->
  exists chunks, blob = new_Blob chunks "audio/wav".
Proof.
  intros Hin.
  assert (H : keeps (run evs)).
  { unfold run. apply keeps_forEach. apply keeps_handle. }
  specialize (H w). unfold wav_saves in H.
  rewrite Forall_forall in H. apply (H _ Hin).
Qed.

End RecorderFacts.

(** ** From the recorder to the analysis client *)

Module PipelineFacts.
Import Js GeminiService GeminiServiceFacts RecorderFacts.

(** C5: whatever blob a run of the recorder hands to [onSave], the request
    [analyzeInterview] sends for it carries inline data that decodes, as
    Base64, to exactly the blob's bytes, under the media type the recorder
    gave the blob, [audio/wav]; it is the one request made once the client
    is built and the blob read, and no other is ever made. *)
Theorem audio_payload_round_trip (rt : Runtime) (evs : list Recorder.event)
  (w : Recorder.World) (audioBlob : Blob) (seconds : nat) :
  In (audioBlob, seconds) (Recorder.saves (snd (Recorder.run evs w))) ->
  exists d,
    requests (snd (analyzeInterview rt audioBlob)) =
      match client rt with
      | Returns _ =>
          if readable rt audioBlob
          then [{| model := modelId;
                   contents :=
                     ContentsParts
                       [InlinePart {| mimeType := blob_type audioBlob;
                                      data := Some d |};
                        TextPart AudioAnalysisPrompt];
                   config :=
                     Some {| responseMimeType := "application/json" |} |}]
          else []
      | Throws _ => []
      end /\
    base64_decode d = Some (blob_bytes audioBlob) /\
    blob_type audioBlob = "audio/wav".
Proof.
  intros Hin.
  destruct (run_saves_wav evs w audioBlob seconds Hin) as (chunks & ->).
  apply wav_blob_round_trip.
Qed.

Lemma audio_payload_round_trip_witness :
  exists d,
    requests
      (snd (analyzeInterview (serving (fun _ => Rejected (Error "offline")))
              {| blob_bytes := ["001"%byte; "002"%byte];
                 blob_type := "audio/wav" |})) =
      [audioRequest (Some d)] /\
    base64_decode d = Some ["001"%byte; "002"%byte].
Proof.
  destruct (audio_payload_round_trip
              (serving (fun _ => Rejected (Error "offline")))
              [Recorder.StopClicked; Recorder.TasksRun]
              Recorder.recording_world
              {| blob_bytes := ["001"%byte; "002"%byte];
                 blob_type := "audio/wav" |} 3)
    as (d & Hreq & Hdec & _).
  - vm_compute. left. reflexivity.
  - exists d. split; [exact Hreq | exact Hdec].
Defined.

End PipelineFacts.

(** ** More on the analysis client *)

Module GeminiServiceMore.
Import Js Json GeminiService GeminiServiceLog Base64Facts JsFacts
  GeminiServiceFacts.

(** X1: for a blob that can be read and whose type has no comma,
    [blobToBase64] resolves, logs nothing, and its string decodes as Base64
    to the blob's bytes; for a blob without bytes it is the empty string,
    not [undefined]. *)
Theorem blobToBase64_round_trip (rt : Runtime) (blob : Blob) :
  readable rt blob = true ->
  no_comma (blob_type blob) = true ->
  exists d,
    blobToBase64 rt blob = (Fulfilled (Some d), []) /\
    base64_decode d = Some (blob_bytes blob) /\
    (blob_bytes blob = [] -> d = EmptyString).
Proof.
  intros Hrd Hty.
  exists (string_of_list_ascii (Base64.encode (blob_bytes blob))).
  repeat split.
  - unfold blobToBase64, readAsDataURL, resolve. rewrite Hrd.
    now rewrite split_data_url.
  - apply base64_decode_encode.
  - intros ->. reflexivity.
Qed.

Lemma blobToBase64_round_trip_witness :
  blobToBase64 (serving (fun _ => Rejected (Error "offline")))
    {| blob_bytes := ["M"%byte; "a"%byte];
       blob_type := "audio/webm;codecs=opus" |}
  = (Fulfilled (Some "TWE="), []).
Proof.
  destruct (blobToBase64_round_trip
              (serving (fun _ => Rejected (Error "offline")))
              {| blob_bytes := ["M"%byte; "a"%byte];
                 blob_type := "audio/webm;codecs=opus" |})
    as (d & Hd & _ & _).
  - reflexivity.
  - reflexivity.
  - rewrite Hd. vm_compute in Hd. injection Hd as <-. reflexivity.
Defined.

(** X2: the string [blobToBase64] gives for [n] bytes it could read is
    [4 * ceil(n / 3)] characters long, whatever the blob's (comma-free)
    type. *)
Theorem blobToBase64_length (rt : Runtime) (blob : Blob) :
  readable rt blob = true ->
  no_comma (blob_type blob) = true ->
  exists d,
    fst (blobToBase64 rt blob) = Fulfilled (Some d) /\
    String.length d = 4 * ((size blob + 2) / 3).
Proof.
  intros Hrd Hty.
  exists (string_of_list_ascii (Base64.encode (blob_bytes blob))). split.
  - unfold blobToBase64, readAsDataURL, resolve. rewrite Hrd.
    now rewrite split_data_url.
  - unfold size.
    assert (Hlen : forall l, String.length (string_of_list_ascii l) = length l).
    { induction l as [|c l IH]; simpl; [reflexivity | now rewrite IH]. }
    rewrite Hlen.
    induction (blob_bytes blob) as [|a|a b|a b c rest IH] using list_ind3;
      try reflexivity.
    cbn [Base64.encode length]. rewrite IH.
    replace (S (S (S (length rest))) + 2) with (length rest + 2 + 1 * 3) by lia.
    rewrite Nat.div_add by lia. lia.
Qed.

Lemma blobToBase64_length_witness :
  exists d,
    fst (blobToBase64 (serving (fun _ => Rejected (Error "offline")))
           {| blob_bytes := ["M"%byte; "a"%byte; "n"%byte; "y"%byte];
              blob_type := "audio/wav" |}) = Fulfilled (Some d) /\
    String.length d = 8.
Proof.
  apply (blobToBase64_length
           (serving (fun _ => Rejected (Error "offline")))
           {| blob_bytes := ["M"%byte; "a"%byte; "n"%byte; "y"%byte];
              blob_type := "audio/wav" |}).
  - reflexivity.
  - reflexivity.
Defined.

(** X3: when the backend call itself fails, both analysis functions fail
    with that same error, after logging it once under their own label;
    the welcome call logs it too but is fulfilled. *)
Theorem backend_error_propagates (rt : Runtime) (ai : Backend)
  (input : string) (audioBlob : Blob) (e1 e2 e3 : exn) :
  client rt = Returns ai ->
  readable rt audioBlob = true ->
  ai (textRequest input) = Rejected e1 ->
  ai (interviewRequest audioBlob) = Rejected e2 ->
  ai welcomeRequest = Rejected e3 ->
  analyzeTextTranscript rt input =
    (Rejected e1,
     [GenerateContent (textRequest input);
      LoggedError "Gemini Text Analysis Error:" e1]) /\
  analyzeInterview rt audioBlob =
    (Rejected e2,
     [GenerateContent (interviewRequest audioBlob);
      LoggedError "Gemini Analysis Error:" e2]) /\
  getWelcomeMessage rt =
    (Fulfilled fallbackWelcome,
     [GenerateContent welcomeRequest;
      LoggedError "Gemini Welcome Message Error:" e3]).
Proof.
  intros Hc Hrd H1 H2 H3. repeat split.
  - now rewrite (analyzeTextTranscript_settled rt ai), H1.
  - now rewrite (analyzeInterview_settled rt ai), H2.
  - now rewrite (getWelcomeMessage_settled rt ai), H3.
Qed.

Lemma backend_error_propagates_witness :
  fst (analyzeTextTranscript
         (serving (fun _ => Rejected (Error "fetch failed"))) "hi")
  = Rejected (Error "fetch failed").
Proof.
  destruct (backend_error_propagates
              (serving (fun _ => Rejected (Error "fetch failed")))
              (fun _ => Rejected (Error "fetch failed")) "hi"
              {| blob_bytes := []; blob_type := "audio/wav" |}
              (Error "fetch failed") (Error "fetch failed")
              (Error "fetch failed") eq_refl eq_refl eq_refl eq_refl eq_refl)
    as (H & _).
  now rewrite H.
Defined.

(** X4: an analysis function is fulfilled with [v] exactly when its client
    was built (and, for the audio, the blob read) and the backend call
    succeeded with non-empty text that [JSON.parse] turns into [v]; it
    never makes up a result. *)
Theorem analysis_fulfilled_iff (rt : Runtime) (input : string)
  (audioBlob : Blob) (v : json) :
  (fst (analyzeTextTranscript rt input) = Fulfilled v <->
   exists ai t, client rt = Returns ai /\
                ai (textRequest input) = Fulfilled {| text := Some t |} /\
                t <> EmptyString /\ JSON_parse t = Some v) /\
  (fst (analyzeInterview rt audioBlob) = Fulfilled v <->
   exists ai t, client rt = Returns ai /\
                readable rt audioBlob = true /\
                ai (interviewRequest audioBlob)
                  = Fulfilled {| text := Some t |} /\
                t <> EmptyString /\ JSON_parse t = Some v).
Proof.
  assert (Hparse : forall response,
    (exists l, parseResponse response = (Fulfilled v, l)) <->
    exists t, response = {| text := Some t |} /\
              t <> EmptyString /\ JSON_parse t = Some v).
  { intros [[[|c r]|]]; unfold parseResponse; cbn [text]; split.
    - intros (l & H). discriminate.
    - intros (t & H & Ht & _). injection H as <-. congruence.
    - intros (l & H). unfold JSON_parse_or_throw in H.
      destruct (JSON_parse (String c r)) as [v'|] eqn:E; [|discriminate].
      injection H as -> _. exists (String c r). repeat split; congruence.
    - intros (t & H & _ & Hp). injection H as <-.
      unfold JSON_parse_or_throw. rewrite Hp. now exists [].
    - intros (l & H). discriminate.
    - intros (t & H & _). discriminate. }
  assert (Hcall : forall (ai : Backend) (request : GenerateContentParameters)
                         (label : string),
    fst match ai request with
        | Fulfilled response =>
            match parseResponse response with
            | (Fulfilled v', _) => (Fulfilled v', [GenerateContent request])
            | (Rejected e, _) =>
                (Rejected e, [GenerateContent request; LoggedError label e])
            end
        | Rejected e =>
            (Rejected e, [GenerateContent request; LoggedError label e])
        end = Fulfilled v <->
    exists t, ai request = Fulfilled {| text := Some t |} /\
              t <> EmptyString /\ JSON_parse t = Some v).
  { intros ai request label.
    destruct (ai request) as [response|e].
    - split.
      + intros H. destruct (parseResponse response) as [[v'|e] l] eqn:E;
          [|discriminate].
        injection H as ->.
        destruct (proj1 (Hparse response) (ex_intro _ l E)) as (t & -> & H).
        now exists t.
      + intros (t & Hr & H). injection Hr as ->.
        destruct (proj2 (Hparse {| text := Some t |})) as (l & ->);
          [now exists t | reflexivity].
    - split; [discriminate | intros (t & H & _); discriminate]. }
  split.
  - destruct (client rt) as [ai|e] eqn:Hc.
    + rewrite (analyzeTextTranscript_settled rt ai input Hc), Hcall. split.
      * intros (t & H). now exists ai, t.
      * intros (ai' & t & [= <-] & H). now exists t.
    + destruct (constructor_throws rt e input audioBlob Hc) as (_ & -> & _).
      split; [discriminate | intros (ai & t & H & _); discriminate].
  - destruct (client rt) as [ai|e] eqn:Hc.
    + destruct (readable rt audioBlob) eqn:Hrd.
      * rewrite (analyzeInterview_settled rt ai audioBlob Hc Hrd), Hcall. split.
        -- intros (t & H). now exists ai, t.
        -- intros (ai' & t & [= <-] & _ & H). now exists t.
      * rewrite (analyzeInterview_unreadable rt ai audioBlob Hc Hrd).
        split; [discriminate | intros (ai' & t & _ & H & _); discriminate].
    + destruct (constructor_throws rt e input audioBlob Hc) as (_ & _ & ->).
      split; [discriminate | intros (ai & t & H & _); discriminate].
Qed.

Lemma analysis_fulfilled_iff_witness :
  fst (analyzeTextTranscript
         (serving (fun _ => Fulfilled {| text := Some "[]" |})) "hi")
  = Fulfilled (JArray []).
Proof.
  apply (proj1 (analysis_fulfilled_iff
                  (serving (fun _ => Fulfilled {| text := Some "[]" |})) "hi"
                  {| blob_bytes := []; blob_type := "audio/wav" |}
                  (JArray []))).
  exists (fun _ => Fulfilled {| text := Some "[]" |}), "[]".
  repeat split. discriminate.
Defined.

(** X5: [console.error] is called exactly for a failure inside the [try]
    block: once the client is built (and the blob read), an analysis
    function logs once when it fails, with the error it then throws, and
    [getWelcomeMessage] when the backend call threw, not when the text was
    empty.  A constructor that throws, or a blob that cannot be read,
    rejects the promise before the [try]: nothing is logged and no request
    is made. *)
Theorem errors_logged_in_try (rt : Runtime) (input : string)
  (audioBlob : Blob) :
  match client rt with
  | Returns ai =>
      logged (snd (analyzeTextTranscript rt input)) =
        match fst (analyzeTextTranscript rt input) with
        | Fulfilled _ => []
        | Rejected e => [("Gemini Text Analysis Error:", e)]
        end /\
      (if readable rt audioBlob
       then logged (snd (analyzeInterview rt audioBlob)) =
              match fst (analyzeInterview rt audioBlob) with
              | Fulfilled _ => []
              | Rejected e => [("Gemini Analysis Error:", e)]
              end
       else analyzeInterview rt audioBlob
              = (Rejected (ProgressEvent "error"), [])) /\
      logged (snd (getWelcomeMessage rt)) =
        match ai welcomeRequest with
        | Fulfilled _ => []
        | Rejected e => [("Gemini Welcome Message Error:", e)]
        end
  | Throws e =>
      analyzeTextTranscript rt input = (Rejected e, []) /\
      analyzeInterview rt audioBlob = (Rejected e, []) /\
      getWelcomeMessage rt = (Rejected e, [])
  end.
Proof.
  destruct (client rt) as [ai|e] eqn:Hc.
  - split; [|split].
    + rewrite (analyzeTextTranscript_settled rt ai input Hc).
      destruct (ai (textRequest input)) as [response|e]; [|reflexivity].
      destruct (parseResponse response) as [[v|e] l]; reflexivity.
    + destruct (readable rt audioBlob) eqn:Hrd.
      * rewrite (analyzeInterview_settled rt ai audioBlob Hc Hrd).
        destruct (ai (interviewRequest audioBlob)) as [response|e];
          [|reflexivity].
        destruct (parseResponse response) as [[v|e] l]; reflexivity.
      * exact (analyzeInterview_unreadable rt ai audioBlob Hc Hrd).
    + rewrite (getWelcomeMessage_settled rt ai Hc).
      destruct (ai welcomeRequest) as [response|e]; reflexivity.
  - destruct (constructor_throws rt e input audioBlob Hc) as (H1 & H2 & H3).
    now repeat split.
Qed.

Lemma errors_logged_in_try_witness :
  analyzeTextTranscript (keyless (fun _ => Rejected (Error "offline"))) "hi"
    = (Rejected (Error "An API Key must be set"), []) /\
  analyzeInterview (unreadable (fun _ => Rejected (Error "offline")))
    {| blob_bytes := ["001"%byte]; blob_type := "audio/wav" |}
    = (Rejected (ProgressEvent "error"), []) /\
  logged (snd (analyzeTextTranscript
                 (serving (fun _ => Rejected (Error "offline"))) "hi"))
    = [("Gemini Text Analysis Error:", Error "offline")].
Proof.
  split; [|split].
  - destruct (errors_logged_in_try
                (keyless (fun _ => Rejected (Error "offline"))) "hi"
                {| blob_bytes := ["001"%byte]; blob_type := "audio/wav" |})
      as (H & _).
    exact H.
  - destruct (errors_logged_in_try
                (unreadable (fun _ => Rejected (Error "offline"))) "hi"
                {| blob_bytes := ["001"%byte]; blob_type := "audio/wav" |})
      as (_ & H & _).
    exact H.
  - destruct (errors_logged_in_try
                (serving (fun _ => Rejected (Error "offline"))) "hi"
                {| blob_bytes := ["001"%byte]; blob_type := "audio/wav" |})
      as (H & _).
    exact H.
Defined.

End GeminiServiceMore.

(** ** The clock and the welcome message *)

Module RecorderViewFacts.
Import Js GeminiService GeminiServiceFacts RecorderView.
Import Decimal DecimalString DecimalNat.

Lemma getWelcomeMessage_total (rt : Runtime) (ai : Backend) :
  client rt = Returns ai ->
  exists msg log,
    getWelcomeMessage rt = (Fulfilled msg, log) /\ msg <> EmptyString.
Proof.
  intros Hc. rewrite (getWelcomeMessage_settled rt ai Hc).
  destruct (ai welcomeRequest) as [response|e].
  - unfold or_else. destruct (text response) as [[|c r]|];
      eexists; eexists; split; try reflexivity; discriminate.
  - eexists; eexists; split; try reflexivity; discriminate.
Qed.

Lemma digits_of_uint (d : uint) :
  string_forallb decimal_digit (NilEmpty.string_of_uint d) = true.
Proof. induction d; simpl; try assumption; reflexivity. Qed.

Lemma toString_digits (n : nat) : string_forallb decimal_digit (toString n) = true.
Proof.
  unfold toString, NilZero.string_of_uint.
  destruct (Nat.to_uint n); try apply digits_of_uint. reflexivity.
Qed.

Lemma toString_value (n : nat) : digits_value (toString n) = Some n.
Proof.
  unfold digits_value, toString.
  pose proof (Unsigned.of_to n) as Hn.
  destruct (Nat.to_uint n) as [| | | | | | | | | |] eqn:E;
    try (rewrite NilZero.usu by discriminate; cbn [option_map];
         now rewrite Hn).
  cbn in *. now rewrite <- Hn.
Qed.

Lemma toString_nonempty (n : nat) : toString n <> EmptyString.
Proof.
  intros H. pose proof (toString_value n) as Hv. rewrite H in Hv. discriminate.
Qed.

Lemma zero_prefix_value (s : string) (n : nat) :
  digits_value s = Some n -> digits_value (String "0" s) = Some n.
Proof.
  unfold digits_value. intros H.
  destruct s as [|c s]; [discriminate H|].
  change (NilZero.uint_of_string (String "0" (String c s)))
    with (uint_of_char "0" (NilEmpty.uint_of_string (String c s))).
  change (NilZero.uint_of_string (String c s))
    with (NilEmpty.uint_of_string (String c s)) in H.
  destruct (NilEmpty.uint_of_string (String c s)) as [d|];
    [|discriminate H].
  cbn in *. injection H as <-. reflexivity.
Qed.

Lemma padStart_value (s : string) (n : nat) :
  digits_value s = Some n -> digits_value (padStart 2 "0" s) = Some n.
Proof.
  intros H. unfold padStart.
  destruct s as [|a [|b s]]; [discriminate| |exact H].
  cbn. now apply zero_prefix_value.
Qed.

Lemma padStart_digits (s : string) :
  string_forallb decimal_digit s = true ->
  string_forallb decimal_digit (padStart 2 "0" s) = true.
Proof.
  intros H. unfold padStart.
  destruct s as [|a [|b s]]; [reflexivity | | exact H].
  cbn in *. exact H.
Qed.

Lemma digit_no_colon (s : string) :
  string_forallb decimal_digit s = true -> string_forallb no_colon s = true.
Proof.
  induction s as [|c s IH]; [reflexivity|]. cbn [string_forallb].
  intros H. apply andb_prop in H. destruct H as [Hc Hs].
  rewrite (IH Hs), andb_true_r.
  unfold no_colon. apply negb_true_iff, Ascii.eqb_neq. intros ->.
  discriminate Hc.
Qed.

Lemma split_colon_none (s : string) :
  string_forallb no_colon s = true -> split ":" s = [s].
Proof.
  induction s as [|c r IH]; simpl; [reflexivity|].
  intros H. apply andb_prop in H. destruct H as [Hc Hr].
  apply negb_true_iff in Hc. rewrite Hc, (IH Hr). reflexivity.
Qed.

Lemma split_colon_at (p r : string) :
  string_forallb no_colon p = true ->
  split ":" (p ++ String ":" r) = p :: split ":" r.
Proof.
  induction p as [|c p IH]; simpl; [reflexivity|].
  intros H. apply andb_prop in H. destruct H as [Hc Hp].
  apply negb_true_iff in Hc. rewrite Hc, (IH Hp). reflexivity.
Qed.

(** X6: the clock text can be read back: the minutes and the seconds
    around the colon give the number of seconds it was made from, so two
    different durations never show the same text. *)
Theorem formatTime_round_trip (seconds : nat) :
  readTime (formatTime seconds) = Some seconds /\
  forall other, formatTime other = formatTime seconds -> other = seconds.
Proof.
  assert (H : forall n, readTime (formatTime n) = Some n).
  { intros n. unfold readTime, formatTime.
    change (?a ++ ":" ++ ?b)%string with (a ++ String ":" b)%string.
    rewrite split_colon_at
      by (apply digit_no_colon, padStart_digits, toString_digits).
    rewrite split_colon_none
      by (apply digit_no_colon, padStart_digits, toString_digits).
    rewrite !(padStart_value _ _ (toString_value _)).
    f_equal. pose proof (Nat.div_mod_eq n 60). lia. }
  split; [apply H|].
  intros other Heq. pose proof (H other) as Ho. rewrite Heq, H in Ho.
  now injection Ho.
Qed.

Lemma two_wide_table : forallb two_wide (seq 0 100) = true.
Proof. vm_compute. reflexivity. Qed.

Lemma padStart_small (n : nat) :
  n < 100 -> String.length (padStart 2 "0" (toString n)) = 2.
Proof.
  intros Hn. apply Nat.eqb_eq.
  apply (proj1 (forallb_forall two_wide (seq 0 100)) two_wide_table).
  apply in_seq. lia.
Qed.

Lemma string_of_uint_length (d : uint) :
  String.length (NilEmpty.string_of_uint d) = nb_digits d.
Proof. induction d; simpl; congruence. Qed.

Lemma two_digits_bound (d : uint) : nb_digits d <= 2 -> Nat.of_uint d < 100.
Proof.
  intros H.
  destruct d as [|d|d|d|d|d|d|d|d|d|d]; [cbn; lia|..];
    (destruct d as [|d|d|d|d|d|d|d|d|d|d]; [cbn; lia|..];
     (destruct d; [cbn; lia | cbn in H; lia ..])).
Qed.

Lemma toString_large (n : nat) :
  100 <= n -> 3 <= String.length (toString n).
Proof.
  intros Hn. unfold toString, NilZero.string_of_uint.
  pose proof (Unsigned.of_to n) as Hof.
  pose proof (two_digits_bound (Nat.to_uint n)) as Hb.
  pose proof (string_of_uint_length (Nat.to_uint n)) as Hl.
  destruct (Nat.to_uint n) eqn:E; [cbn in Hof; lia|..]; lia.
Qed.

Lemma padStart_length (s : string) :
  String.length (padStart 2 "0" s) = Nat.max 2 (String.length s).
Proof. destruct s as [|a [|b s]]; cbn; lia. Qed.

Lemma append_length (a b : string) :
  String.length (a ++ b) = String.length a + String.length b.
Proof. induction a as [|c a IH]; cbn; [reflexivity | now rewrite IH]. Qed.

Lemma formatTime_round_trip_witness :
  readTime (formatTime 754) = Some 754 /\ formatTime 754 = "12:34".
Proof.
  split.
  - apply (formatTime_round_trip 754).
  - reflexivity.
Defined.

(** X7: the clock text is minutes, a colon and two digits of seconds; it
    is five characters wide exactly for durations under 100 minutes, and
    wider beyond: the minutes are never folded into hours. *)
Theorem formatTime_width (seconds : nat) :
  (exists mm ss,
     formatTime seconds = (mm ++ ":" ++ ss)%string /\
     String.length ss = 2 /\
     digits_value ss = Some (seconds mod 60) /\
     digits_value mm = Some (seconds / 60)) /\
  (String.length (formatTime seconds) = 5 <-> seconds < 100 * 60).
Proof.
  assert (Hss : String.length (padStart 2 "0" (toString (seconds mod 60))) = 2).
  { apply padStart_small.
    pose proof (Nat.mod_upper_bound seconds 60). lia. }
  split.
  - exists (padStart 2 "0" (toString (seconds / 60))),
           (padStart 2 "0" (toString (seconds mod 60))).
    repeat split; try assumption;
      apply padStart_value, toString_value.
  - unfold formatTime. cbv zeta.
    rewrite !append_length, Hss. cbn [String.length].
    rewrite padStart_length.
    destruct (Nat.lt_ge_cases (seconds / 60) 100) as [Hlt|Hge].
    + pose proof (padStart_small _ Hlt) as Hm.
      rewrite padStart_length in Hm.
      assert (seconds < 100 * 60).
      { pose proof (Nat.div_mod_eq seconds 60).
        pose proof (Nat.mod_upper_bound seconds 60). lia. }
      lia.
    + pose proof (toString_large _ Hge).
      assert (100 * 60 <= seconds).
      { pose proof (Nat.div_mod_eq seconds 60). lia. }
      lia.
Qed.

Lemma formatTime_width_witness :
  String.length (formatTime 3599) = 5 /\ formatTime (100 * 60) = "100:00".
Proof.
  split.
  - apply (proj2 (formatTime_width 3599)). lia.
  - reflexivity.
Defined.

(** X8: once the welcome request has settled on a mounted component the
    spinner is gone, whichever way it settled.  When the client was built,
    the guide box shows a message that is not empty, the backend's text or
    the fallback, and [console.error] of the mount effect is not reached.
    When the constructor threw, that [catch] is reached: the error is
    logged and [welcomeMessage] stays as it was, empty after mount.  If the
    component was unmounted meanwhile, no state is set. *)
Theorem fetchWelcome_settles (rt : Runtime) (g : Guide) :
  isLoadingMessage (fst (fetchWelcome rt true g)) = false /\
  fst (fetchWelcome rt false g) = g /\
  match client rt with
  | Returns _ =>
      exists msg,
        fst (getWelcomeMessage rt) = Fulfilled msg /\
        msg <> EmptyString /\
        fst (fetchWelcome rt true g)
          = {| welcomeMessage := msg; isLoadingMessage := false |} /\
        render_guide (fst (fetchWelcome rt true g)) = Quote msg /\
        forall mounted e,
          ~ In (ConsoleErrorValue e) (snd (fetchWelcome rt mounted g))
  | Throws e =>
      fetchWelcome rt true g
        = ({| welcomeMessage := welcomeMessage g; isLoadingMessage := false |},
           [ConsoleErrorValue e; SetIsLoadingMessage false]) /\
      fetchWelcome rt false g = (g, [ConsoleErrorValue e]) /\
      render_guide (fst (fetchWelcome rt true guide_mounted))
        = Quote EmptyString
  end.
Proof.
  destruct (client rt) as [ai|e] eqn:Hc.
  - destruct (getWelcomeMessage_total rt ai Hc) as (msg & log & Hw & Hne).
    unfold fetchWelcome. rewrite Hw. cbn [fst snd].
    split; [reflexivity|]. split; [reflexivity|].
    exists msg. repeat split; try assumption.
    intros mounted e Hin. destruct mounted; cbn in Hin;
      rewrite in_app_iff, in_map_iff in Hin;
      destruct Hin as [(x & Hx & _)|Hin]; try discriminate;
      cbn in Hin; intuition discriminate.
  - destruct (constructor_throws rt e EmptyString
                {| blob_bytes := []; blob_type := EmptyString |} Hc)
      as (Hw & _).
    unfold fetchWelcome. rewrite Hw. cbn.
    repeat split.
Qed.

Lemma fetchWelcome_settles_witness :
  fst (fetchWelcome (serving (fun _ => Rejected (Error "offline"))) true
         guide_mounted)
  = {| welcomeMessage := fallbackWelcome; isLoadingMessage := false |} /\
  fst (fetchWelcome (keyless (fun _ => Rejected (Error "offline"))) true
         guide_mounted)
  = {| welcomeMessage := EmptyString; isLoadingMessage := false |}.
Proof.
  split.
  - destruct (fetchWelcome_settles
                (serving (fun _ => Rejected (Error "offline"))) guide_mounted)
      as (_ & _ & msg & Hm & _ & Hg & _).
    rewrite Hg. cbn in Hm. injection Hm as <-. reflexivity.
  - destruct (fetchWelcome_settles
                (keyless (fun _ => Rejected (Error "offline"))) guide_mounted)
      as (_ & _ & Hg & _).
    rewrite Hg. reflexivity.
Defined.

End RecorderViewFacts.

(** ** Whole runs of the recorder *)

Module RecorderRunsFacts.
Import Js Recorder RecorderFacts RecorderRuns.

Lemma uncaught_app (a b : list effect) :
  uncaught (a ++ b) = uncaught a ++ uncaught b.
Proof.
  induction a as [|e a IH]; [reflexivity|].
  destruct e; cbn [app uncaught]; rewrite ?IH; reflexivity.
Qed.

Lemma uncaught_track_stops (ts : list track) : uncaught (map TrackStop ts) = [].
Proof. induction ts; [reflexivity | assumption]. Qed.

Lemma uncaught_ticks (k : nat) : uncaught (repeat SetDuration_succ k) = [].
Proof. induction k; [reflexivity | assumption]. Qed.

Lemma run_cons (ev : event) (evs : list event) (w : World) :
  run (ev :: evs) w = (handle ev ;; run evs) w.
Proof. reflexivity. Qed.

Lemma run_nil (w : World) : run [] w = (Fulfilled tt, w, []).
Proof. reflexivity. Qed.

Lemma handle_captured (c : Component) (recs : list MediaRecorder)
  (ivs : list nat) (nxt : nat) (lv : list track) (tks : list task)
  (mime : string) (m : MediaRecorder) (audio : list byte) :
  rec_state m = recording ->
  handle (AudioCaptured (length recs) audio)
    {| comp := c;
       browser := {| recorders := recs ++ [m]; intervals := ivs;
                     next_interval := nxt; live := lv; tasks := tks;
                     recorder_mime := mime |} |} =
  (Fulfilled tt,
   {| comp := c;
      browser :=
        {| recorders :=
             recs ++ [with_state recording (rec_buffer m ++ audio) m];
           intervals := ivs; next_interval := nxt; live := lv; tasks := tks;
           recorder_mime := mime |} |},
   []).
Proof.
  intros Hm. cbn [handle]. unfold on_recorder, on_browser. fields.
  rewrite update_last, Hm. reflexivity.
Qed.

(** One recording, from a world with no recorder event pending. *)
Lemma recording_runs (c : Component) (b : Browser) (s : MediaStream)
  (k : nat) (audio : list byte) :
  tasks b = [] ->
  exists w tr,
    run (one_recording s (next_interval b) (length (recorders b)) k audio)
      {| comp := c; browser := b |} = (Fulfilled tt, w, tr) /\
    saves tr = [({| blob_bytes := audio; blob_type := "audio/wav" |},
                 duration c + k)] /\
    uncaught tr = [] /\
    isRecording (comp w) = false /\
    duration (comp w) = duration c + k /\
    stream (comp w) = None /\
    intervals (browser w) =
      match running_timer (Some (next_interval b)) with
      | Some id => remove Nat.eq_dec id (intervals b ++ [next_interval b])
      | None => intervals b ++ [next_interval b]
      end /\
    live (browser w) = stop_all (getTracks s) (live b ++ getTracks s) /\
    tasks (browser w) = [] /\
    next_interval (browser w) = S (next_interval b) /\
    length (recorders (browser w)) = S (length (recorders b)).
Proof.
  intros Htasks.
  destruct c as [isR dur st ref chunks timer].
  destruct b as [recs ivs nxt lv tks mime]. fields. subst tks.
  unfold one_recording. rewrite run_cons. unfold bind at 1.
  rewrite handle_start_granted, startRecording_granted. fields.
  rewrite run_app. unfold bind at 1.
  rewrite run_ticks by (fields; apply existsb_last). fields.
  rewrite run_cons. unfold bind at 1.
  rewrite handle_captured by reflexivity.
  cbn [rec_buffer app].
  rewrite run_cons. unfold bind at 1. cbn [handle].
  set (m := with_state recording audio _).
  erewrite reported_fulfilled
    by (apply (stopRecording_recording _ _ (length recs) m);
        [reflexivity | reflexivity | fields; apply nth_error_last
        | reflexivity]).
  fields. rewrite update_last. cbn [app].
  rewrite run_cons. unfold bind at 1. cbn [handle].
  set (h := {| seen_stream := Some s; seen_duration := dur + k |}).
  set (data := {| blob_bytes := rec_buffer m; blob_type := mime |}).
  erewrite reported_fulfilled
    by (apply (run_tasks_stopped _ _ (length recs)
                 (with_onstop h (with_state inactive [] m)) h data);
        [reflexivity | fields; apply nth_error_last | reflexivity
        | reflexivity]).
  rewrite run_nil. fields. cbn [seen_stream seen_duration tracks_of].
  eexists. eexists. split; [reflexivity|].
  split.
  { subst h. cbn [seen_stream seen_duration tracks_of].
    destruct (running_timer (Some nxt));
      repeat first [ progress cbn [saves app] | rewrite saves_app
                   | rewrite saves_ticks | rewrite saves_track_stops ];
      repeat f_equal; subst data m; unfold new_Blob, chunks_with, size; cbn;
      (destruct audio as [|x audio]; cbn; [reflexivity|]);
      now rewrite app_nil_r. }
  split.
  { destruct (running_timer (Some nxt));
      repeat first [ progress cbn [uncaught app] | rewrite uncaught_app
                   | rewrite uncaught_ticks | rewrite uncaught_track_stops ];
      reflexivity. }
  fields. repeat split; try reflexivity.
  now rewrite length_app, Nat.add_comm.
Qed.

(** X9: a recording made from any state with no recorder event pending
    ends in exactly one [onSave], whose blob holds the audio of this
    recording and nothing else, whatever chunks were left in [chunksRef]
    before, typed [audio/wav], with the seconds counted so far; a recording
    stopped at once, with no audio, gives an empty blob and no error. *)
Theorem artifact_holds_own_audio (c : Component) (b : Browser)
  (s : MediaStream) (k : nat) (audio : list byte) :
  tasks b = [] ->
  exists w tr,
    run (one_recording s (next_interval b) (length (recorders b)) k audio)
      {| comp := c; browser := b |} = (Fulfilled tt, w, tr) /\
    saves tr = [({| blob_bytes := audio; blob_type := "audio/wav" |},
                 duration c + k)] /\
    uncaught tr = [].
Proof.
  intros Htasks.
  destruct (recording_runs c b s k audio Htasks)
    as (w & tr & Hrun & Hsaves & Hquiet & _).
  now exists w, tr.
Qed.

Lemma artifact_holds_own_audio_witness :
  exists w tr,
    run (one_recording {| getTracks := [3] |} 1 0 0 [])
      {| comp := with_chunksRef
                   [{| blob_bytes := ["009"%byte]; blob_type := "audio/webm" |}]
                   mounted;
         browser := fresh "audio/webm" |} = (Fulfilled tt, w, tr) /\
    saves tr = [({| blob_bytes := []; blob_type := "audio/wav" |}, 0)] /\
    uncaught tr = [].
Proof.
  apply (artifact_holds_own_audio
           (with_chunksRef
              [{| blob_bytes := ["009"%byte]; blob_type := "audio/webm" |}]
              mounted)
           (fresh "audio/webm") {| getTracks := [3] |} 0 []).
  reflexivity.
Defined.

Lemma stop_all_self (ts l : list track) :
  (forall x, In x l -> In x ts) -> stop_all ts l = [].
Proof.
  intros Hsub. destruct (stop_all ts l) as [|x rest] eqn:E; [reflexivity|].
  assert (Hin : In x (stop_all ts l)) by (rewrite E; now left).
  apply stop_all_subset in Hin. destruct Hin as [Hl Hts].
  exfalso. apply Hts, Hsub, Hl.
Qed.

Lemma remove_only (id : nat) : remove Nat.eq_dec id ([] ++ [id]) = [].
Proof. cbn. destruct (Nat.eq_dec id id); [reflexivity | congruence]. Qed.

Lemma recordings_run (l : list (MediaStream * nat * list byte)) :
  forall c b,
    tasks b = [] -> intervals b = [] -> live b = [] ->
    next_interval b <> 0 ->
    stream c = None -> isRecording c = false ->
    exists w tr,
      run (recordings (next_interval b) (length (recorders b)) l)
        {| comp := c; browser := b |} = (Fulfilled tt, w, tr) /\
      saves tr = artifacts (duration c) l /\
      uncaught tr = [] /\
      live (browser w) = [] /\ intervals (browser w) = [] /\
      tasks (browser w) = [] /\
      stream (comp w) = None /\ isRecording (comp w) = false.
Proof.
  induction l as [|[[s k] audio] l IH];
    intros c b Htasks Hivs Hlive Hnext Hstream HisR.
  - exists {| comp := c; browser := b |}, []. fields. now repeat split.
  - cbn [recordings artifacts].
    destruct (recording_runs c b s k audio Htasks)
      as (w1 & tr1 & Hrun1 & Hsaves1 & Hquiet1 & HisR1 & Hdur1 & Hstream1
          & Hivs1 & Hlive1 & Htasks1 & Hnext1 & Hlen1).
    destruct w1 as [c1 b1]. fields.
    rewrite Hivs in Hivs1. rewrite Hlive in Hlive1.
    assert (Hivs1' : intervals b1 = []).
    { rewrite Hivs1. destruct (next_interval b) as [|n]; [congruence|].
      cbn [running_timer]. apply remove_only. }
    assert (Hlive1' : live b1 = []).
    { rewrite Hlive1. apply stop_all_self. intros x Hx. exact Hx. }
    destruct (IH c1 b1 Htasks1 Hivs1' Hlive1' ltac:(lia) Hstream1 HisR1)
      as (w2 & tr2 & Hrun2 & Hsaves2 & Hquiet2 & Hrest).
    rewrite Hnext1, Hlen1 in Hrun2.
    rewrite run_app. unfold bind. rewrite Hrun1, Hrun2.
    exists w2, (tr1 ++ tr2). split; [reflexivity|].
    rewrite saves_app, uncaught_app, Hsaves1, Hsaves2, Hquiet1, Hquiet2, Hdur1.
    split; [reflexivity|]. split; [reflexivity|]. exact Hrest.
Qed.

(** X10: after any number of complete recordings made by a mounted
    component, nothing is left behind: no microphone track is open, no
    interval timer runs (a late tick changes nothing), no recorder event is
    pending, [stream] is null and no handler threw; each [onSave] got the
    audio of its own recording. *)
Theorem recordings_release_everything (mime : string)
  (l : list (MediaStream * nat * list byte)) :
  exists w tr,
    run (recordings 1 0 l) (initial mime) = (Fulfilled tt, w, tr) /\
    saves tr = artifacts 0 l /\
    uncaught tr = [] /\
    live (browser w) = [] /\
    intervals (browser w) = [] /\
    tasks (browser w) = [] /\
    stream (comp w) = None /\
    isRecording (comp w) = false /\
    forall id, handle (IntervalFired id) w = (Fulfilled tt, w, []).
Proof.
  destruct (recordings_run l mounted (fresh mime))
    as (w & tr & Hrun & Hsaves & Hquiet & Hlive & Hivs & Htasks & Hstream
        & HisR); try reflexivity; [discriminate|].
  exists w, tr. repeat split; try assumption.
  intros id. cbn [handle]. unfold bind, get. rewrite Hivs. reflexivity.
Qed.

Lemma stop_all_keeps (ts : list track) : forall l x,
  In x l -> ~ In x ts -> In x (stop_all ts l).
Proof.
  induction ts as [|t ts IH]; intros l x Hl Hts; cbn [stop_all fold_left].
  - exact Hl.
  - apply IH.
    + apply in_in_remove; [|exact Hl]. intros ->. apply Hts. now left.
    + intros H. apply Hts. now right.
Qed.

(** X11: [startRecording] does not look at [isRecording].  When a second
    start is granted while a recording is on, the stop that follows releases
    the second stream only: every track of the first stream that the second
    does not share stays open, and the first interval keeps running, so the
    seconds counter still advances after the stop. *)
Theorem second_start_leaks_first (c : Component) (b : Browser)
  (s1 s2 : MediaStream) :
  tasks b = [] ->
  exists w tr,
    run [StartClicked (Fulfilled s1); StartClicked (Fulfilled s2);
         StopClicked; TasksRun] {| comp := c; browser := b |}
      = (Fulfilled tt, w, tr) /\
    isRecording (comp w) = false /\
    (forall t, In t (getTracks s1) -> ~ In t (getTracks s2) ->
               In t (live (browser w))) /\
    (forall t, In t (getTracks s2) -> ~ In t (live (browser w))) /\
    In (next_interval b) (intervals (browser w)) /\
    duration (comp (snd (fst (handle (IntervalFired (next_interval b)) w))))
      = duration (comp w) + 1.
Proof.
  intros Htasks.
  destruct c as [isR dur st ref chunks timer].
  destruct b as [recs ivs nxt lv tks mime]. fields. subst tks.
  rewrite run_cons. unfold bind at 1.
  rewrite handle_start_granted, startRecording_granted. fields.
  rewrite run_cons. unfold bind at 1.
  rewrite handle_start_granted, startRecording_granted. fields.
  rewrite run_cons. unfold bind at 1. cbn [handle].
  set (m1 := {| rec_stream := s1; rec_state := recording; rec_buffer := [];
                ondataavailable := true; onstop := None |}).
  set (m2 := {| rec_stream := s2; rec_state := recording; rec_buffer := [];
                ondataavailable := true; onstop := None |}).
  erewrite reported_fulfilled
    by (apply (stopRecording_recording _ _ (length (recs ++ [m1])) m2);
        [reflexivity | reflexivity | fields; apply nth_error_last
        | reflexivity]).
  fields. rewrite update_last. cbn [app running_timer].
  rewrite run_cons. unfold bind at 1. cbn [handle].
  set (h := {| seen_stream := Some s2; seen_duration := dur |}).
  set (data := {| blob_bytes := rec_buffer m2; blob_type := mime |}).
  erewrite reported_fulfilled
    by (apply (run_tasks_stopped _ _ (length (recs ++ [m1]))
                 (with_onstop h (with_state inactive [] m2)) h data);
        [reflexivity | fields; apply nth_error_last | reflexivity
        | reflexivity]).
  rewrite run_nil. fields. cbn [seen_stream tracks_of].
  eexists. eexists. split; [reflexivity|]. fields.
  assert (Hin : In nxt (remove Nat.eq_dec (S nxt) ((ivs ++ [nxt]) ++ [S nxt]))).
  { apply in_in_remove; [lia|]. rewrite !in_app_iff. left. right. now left. }
  split; [reflexivity|]. split; [|split; [|split]].
  - intros t Ht1 Ht2. apply stop_all_keeps; [|exact Ht2].
    rewrite !in_app_iff. left. now right.
  - intros t Ht Hin'. apply stop_all_subset in Hin'. tauto.
  - exact Hin.
  - unfold bind, get. fields.
    assert (He : existsb (Nat.eqb nxt)
                   (remove Nat.eq_dec (S nxt) ((ivs ++ [nxt]) ++ [S nxt]))
                 = true).
    { apply existsb_exists. exists nxt. split; [exact Hin|].
      apply Nat.eqb_refl. }
    rewrite He. reflexivity.
Qed.

Lemma second_start_leaks_first_witness :
  exists w tr,
    run [StartClicked (Fulfilled {| getTracks := [1] |});
         StartClicked (Fulfilled {| getTracks := [2] |});
         StopClicked; TasksRun] (initial "audio/webm")
      = (Fulfilled tt, w, tr) /\
    live (browser w) = [1] /\ intervals (browser w) = [1].
Proof.
  destruct (second_start_leaks_first mounted (fresh "audio/webm")
              {| getTracks := [1] |} {| getTracks := [2] |} eq_refl)
    as (w & tr & Hrun & _).
  exists w, tr. split; [exact Hrun|].
  vm_compute in Hrun. injection Hrun as <- _. split; reflexivity.
Defined.

(** *** Properties of every trace *)

Section TraceInvariant.
Variable P : list effect -> Prop.
Hypothesis P_nil : P [].
Hypothesis P_app : forall a b, P a -> P b -> P (a ++ b).

Lemma always_ret {A} (a : A) : always P (ret a).
Proof. intros w. exact P_nil. Qed.

Lemma always_throw {A} (e : exn) : always P (@throw A e).
Proof. intros w. exact P_nil. Qed.

Lemma always_get : always P get.
Proof. intros w. exact P_nil. Qed.

Lemma always_on_comp (f : Component -> Component) : always P (on_comp f).
Proof. intros w. exact P_nil. Qed.

Lemma always_on_browser (f : Browser -> Browser) : always P (on_browser f).
Proof. intros w. exact P_nil. Qed.

Lemma always_emit (e : effect) : P [e] -> always P (emit e).
Proof. intros H w. exact H. Qed.

Lemma always_bind {A B} (m : M A) (k : A -> M B) :
  always P m -> (forall a, always P (k a)) -> always P (bind m k).
Proof.
  intros Hm Hk w. unfold bind. specialize (Hm w).
  destruct (m w) as [[[a|e] w1] l1]; cbn [snd] in *; [|assumption].
  specialize (Hk a w1). destruct (k a w1) as [[o w2] l2]. cbn [snd] in *.
  now apply P_app.
Qed.

Lemma always_try_catch {A} (m : M A) (h : exn -> M A) :
  always P m -> (forall e, always P (h e)) -> always P (try_catch m h).
Proof.
  intros Hm Hh w. unfold try_catch. specialize (Hm w).
  destruct (m w) as [[[a|e] w1] l1]; cbn [snd] in *; [assumption|].
  specialize (Hh e w1). destruct (h e w1) as [[o w2] l2]. cbn [snd] in *.
  now apply P_app.
Qed.

Lemma always_forEach {A} (l : list A) (f : A -> M unit) :
  (forall x, always P (f x)) -> always P (forEach l f).
Proof.
  intros Hf. induction l as [|x l IH]; cbn [forEach].
  - apply always_ret.
  - apply always_bind; [apply Hf | intros _; exact IH].
Qed.
End TraceInvariant.

Lemma released_mono (tr : list effect) :
  released_before_save false tr = true ->
  forall b, released_before_save b tr = true.
Proof.
  intros H [|]; [|exact H].
  destruct tr as [|e tr]; [reflexivity|].
  destruct e; cbn [released_before_save] in *; try assumption.
  discriminate H.
Qed.

Lemma released_app (a c : list effect) : forall b,
  released_before_save b a = true -> released_ok c ->
  released_before_save b (a ++ c) = true.
Proof.
  induction a as [|e a IH]; intros b Ha Hc; cbn [app].
  - now apply released_mono.
  - destruct e as [| |[s|]| | | | | | | | |];
      cbn [released_before_save] in *; try (now apply IH).
    apply andb_prop in Ha. destruct Ha as [-> Ha]. cbn. now apply IH.
Qed.

Lemma released_ok_app (a c : list effect) :
  released_ok a -> released_ok c -> released_ok (a ++ c).
Proof. intros Ha Hc. now apply released_app. Qed.

Lemma released_spec (pre post : list effect) (blob : Blob) (d : nat) :
  forall b,
    released_before_save b (pre ++ OnSave blob d :: post) = true ->
    (pre = [] /\ b = true) \/ exists pre', pre = pre' ++ [SetStream None].
Proof.
  induction pre as [|e pre IH]; intros b H; cbn [app] in H.
  - cbn [released_before_save] in H. apply andb_prop in H. left. tauto.
  - right.
    assert (Hcase : exists b', released_before_save b' (pre ++ OnSave blob d :: post) = true
                   /\ (b' = true -> e = SetStream None)).
    { destruct e as [| |[s|]| | | | | | | | |];
        cbn [released_before_save] in H;
        try (exists false; split; [exact H | discriminate]).
      - exists true. split; [exact H | reflexivity].
      - apply andb_prop in H. destruct H as [_ H].
        exists false; split; [exact H | discriminate]. }
    destruct Hcase as (b' & Hb' & He).
    destruct (IH b' Hb') as [[-> ->]|(pre' & ->)].
    + exists []. now rewrite He.
    + exists (e :: pre'). reflexivity.
Qed.

Ltac always_step :=
  match goal with
  | |- always _ (ret _) => apply always_ret
  | |- always _ (throw _) => apply always_throw
  | |- always _ get => apply always_get
  | |- always _ (on_comp _) => apply always_on_comp
  | |- always _ (on_browser _) => apply always_on_browser
  | |- always _ (setStream None ;; onSave _ _) => intros ?; reflexivity
  | |- always _ (emit _) => apply always_emit; reflexivity
  | |- always _ (bind _ _) =>
      apply always_bind; [exact released_ok_app| |intros]
  | |- always _ (try_catch _ _) =>
      apply always_try_catch; [exact released_ok_app| |intros]
  | |- always _ (forEach _ _) =>
      apply always_forEach; [reflexivity|exact released_ok_app|intros]
  | |- always _ (match ?x with _ => _ end) => destruct x
  end.

Lemma released_handle (ev : event) : always released_ok (handle ev).
Proof.
  destruct ev; cbn [handle];
    repeat first
      [ always_step
      | progress unfold startRecording, stopRecording, onstop_handler,
          ondataavailable_handler, dispatch, run_tasks, reported,
          setIsRecording, setDuration_succ, getUserMedia, new_MediaRecorder,
          the_recorder, on_recorder, MediaRecorder_start, MediaRecorder_stop,
          setInterval, clearInterval, track_stop, console_error, alert
      | progress unfold setStream ];
    reflexivity.
Qed.

(** X12: in every run of the recorder, from any state, each call of
    [onSave] comes directly after a [setStream(null)]: the artifact is never
    handed on from anywhere but the end of the [onstop] handler. *)
Theorem save_only_after_release (evs : list event) (w : World)
  (pre post : list effect) (blob : Blob) (d : nat) :
  snd (run evs w) = pre ++ OnSave blob d :: post ->
  exists pre', pre = pre' ++ [SetStream None].
Proof.
  intros Htr.
  assert (H : always released_ok (run evs)).
  { unfold run. apply always_forEach;
      [reflexivity | exact released_ok_app | apply released_handle]. }
  specialize (H w). unfold released_ok in H. rewrite Htr in H.
  destruct (released_spec _ _ _ _ _ H) as [[_ Hb]|H']; [discriminate|exact H'].
Qed.

Lemma save_only_after_release_witness :
  exists pre',
    [SetStream (Some {| getTracks := [7] |}); RecorderStart 0;
     SetIsRecording true; SetInterval 1; RecorderStop 0;
     SetIsRecording false; ClearInterval 1; TrackStop 7; SetStream None]
    = pre' ++ [SetStream None].
Proof.
  apply (save_only_after_release
           (one_recording {| getTracks := [7] |} 1 0 0 [])
           (initial "audio/webm") _ []
           {| blob_bytes := []; blob_type := "audio/wav" |} 0).
  reflexivity.
Defined.

(** *** No handler throws *)

Lemma nth_error_update_state {A} (f : A -> A) (l : list A) : forall i j x,
  nth_error l j = Some x ->
  nth_error (update i f l) j = Some x \/ nth_error (update i f l) j = Some (f x).
Proof.
  induction l as [|y l IH]; intros [|i] [|j] x H; cbn in *;
    try discriminate; auto.
  injection H as ->. now right.
Qed.

Lemma onstop_handler_runs (h : OnStop) (c : Component) (b : Browser) :
  onstop_handler h {| comp := c; browser := b |} =
  (Fulfilled tt,
   {| comp := with_stream None c;
      browser := with_live (stop_all (tracks_of (seen_stream h)) (live b)) b |},
   map TrackStop (tracks_of (seen_stream h)) ++
     [SetStream None;
      OnSave (new_Blob (chunksRef c) "audio/wav") (seen_duration h)]).
Proof.
  unfold onstop_handler, bind at 1, get. fields. unfold bind at 1.
  replace (match seen_stream h with
           | Some s => forEach (getTracks s) track_stop
           | None => ret tt
           end) with (forEach (tracks_of (seen_stream h)) track_stop)
    by (unfold tracks_of; destruct (seen_stream h); reflexivity).
  rewrite forEach_track_stop.
  unfold setStream, onSave, bind, emit, on_comp, ret. fields.
  cbn [app]. rewrite ?app_nil_r. reflexivity.
Qed.

(** Delivering a recorder event changes neither [isRecording] nor the ref
    nor any recorder, and does not throw. *)
Lemma dispatch_frame (t : task) (w : World) :
  exists w' tr,
    dispatch t w = (Fulfilled tt, w', tr) /\
    isRecording (comp w') = isRecording (comp w) /\
    mediaRecorderRef (comp w') = mediaRecorderRef (comp w) /\
    recorders (browser w') = recorders (browser w) /\
    uncaught tr = [].
Proof.
  destruct w as [c b]. unfold dispatch, bind at 1, get. fields.
  destruct t as [r data|r];
    destruct (nth_error (recorders b) r) as [m|];
    try (eexists; eexists; split; [reflexivity|]; now repeat split).
  - destruct (ondataavailable m);
      [|eexists; eexists; split; [reflexivity|]; now repeat split].
    unfold ondataavailable_handler.
    destruct (0 <? size data)%nat;
      eexists; eexists; (split; [reflexivity|]); destruct c; now repeat split.
  - destruct (onstop m) as [h|];
      [|eexists; eexists; split; [reflexivity|]; now repeat split].
    rewrite onstop_handler_runs.
    eexists; eexists; split; [reflexivity|].
    destruct c, b. fields. repeat split; try reflexivity.
    cbn [app]. rewrite uncaught_app, uncaught_track_stops. reflexivity.
Qed.

Lemma tasks_frame (ts : list task) : forall w,
  exists w' tr,
    forEach ts dispatch w = (Fulfilled tt, w', tr) /\
    isRecording (comp w') = isRecording (comp w) /\
    mediaRecorderRef (comp w') = mediaRecorderRef (comp w) /\
    recorders (browser w') = recorders (browser w) /\
    uncaught tr = [].
Proof.
  induction ts as [|t ts IH]; intros w.
  - exists w, []. now repeat split.
  - cbn [forEach]. unfold bind.
    destruct (dispatch_frame t w) as (w1 & tr1 & -> & H1 & H2 & H3 & H4).
    destruct (IH w1) as (w2 & tr2 & -> & G1 & G2 & G3 & G4).
    exists w2, (tr1 ++ tr2). split; [reflexivity|].
    rewrite uncaught_app, H4, G4. repeat split; congruence.
Qed.

Lemma handle_safe (ev : event) (w : World) :
  recorder_ready w ->
  exists w' tr,
    handle ev w = (Fulfilled tt, w', tr) /\
    recorder_ready w' /\ uncaught tr = [].
Proof.
  intros Hready. destruct w as [c b].
  destruct ev as [[s|e]| |id|r bytes|].
  - rewrite handle_start_granted, startRecording_granted.
    eexists. eexists. split; [reflexivity|]. split; [|reflexivity].
    intros _. fields. eexists. eexists.
    split; [reflexivity|]. split; [apply nth_error_last | reflexivity].
  - exists {| comp := c; browser := b |}. eexists.
    split; [reflexivity|]. split; [exact Hready | reflexivity].
  - cbn [handle].
    destruct (isRecording c) eqn:HisR.
    + destruct (Hready HisR) as (r & m & Href & Hm & Hst). fields.
      erewrite reported_fulfilled
        by (apply (stopRecording_recording c b r m); assumption).
      eexists. eexists. split; [reflexivity|]. split.
      * intros H. fields. destruct c. discriminate H.
      * cbn [uncaught].
        destruct (running_timer (timerRef c)); reflexivity.
    + exists {| comp := c; browser := b |}, [].
      split; [|split; [exact Hready | reflexivity]].
      apply reported_fulfilled.
      unfold stopRecording, bind, get, ret. fields. rewrite HisR.
      destruct (mediaRecorderRef c); reflexivity.
  - cbn [handle]. unfold bind at 1, get. fields.
    destruct (existsb (Nat.eqb id) (intervals b)).
    + unfold setDuration_succ, bind, emit, on_comp. fields.
      eexists. eexists. split; [reflexivity|]. split; [|reflexivity].
      intros H. destruct c. fields. exact (Hready H).
    + exists {| comp := c; browser := b |}, [].
      split; [reflexivity|]. split; [exact Hready | reflexivity].
  - cbn [handle]. unfold on_recorder, on_browser. fields.
    eexists. eexists. split; [reflexivity|]. split; [|reflexivity].
    intros H. fields. destruct (Hready H) as (r0 & m & Href & Hm & Hst).
    fields. destruct b as [recs ivs nxt lv tks mime]. fields.
    set (f := fun m0 : MediaRecorder =>
                match rec_state m0 with
                | inactive => m0
                | recording => with_state recording (rec_buffer m0 ++ bytes) m0
                end).
    destruct (nth_error_update_state f recs r r0 m Hm) as [Hn|Hn].
    + exists r0, m. now repeat split.
    + exists r0, (f m). repeat split; try assumption.
      subst f. cbn. rewrite Hst. reflexivity.
  - cbn [handle]. unfold reported, try_catch, run_tasks, bind at 1, get.
    fields. unfold bind at 1, on_browser at 1. fields.
    destruct (tasks_frame (tasks b)
                {| comp := c; browser := with_tasks [] b |})
      as (w' & tr & -> & H1 & H2 & H3 & H4). fields.
    exists w', tr. split; [reflexivity|]. split; [|exact H4].
    intros H. rewrite H1 in H. destruct (Hready H) as (r & m & Href & Hm & Hst).
    exists r, m. fields. rewrite H2, H3. destruct b. now repeat split.
Qed.

Lemma run_safe (evs : list event) : forall w,
  recorder_ready w ->
  exists w' tr,
    run evs w = (Fulfilled tt, w', tr) /\
    recorder_ready w' /\ uncaught tr = [].
Proof.
  induction evs as [|ev evs IH]; intros w Hready.
  - exists w, []. now repeat split.
  - rewrite run_cons. unfold bind.
    destruct (handle_safe ev w Hready) as (w1 & tr1 & -> & Hr1 & Hq1).
    destruct (IH w1 Hr1) as (w2 & tr2 & -> & Hr2 & Hq2).
    exists w2, (tr1 ++ tr2). split; [reflexivity|]. split; [exact Hr2|].
    now rewrite uncaught_app, Hq1, Hq2.
Qed.

(** X13: whatever the user and the browser do after mount (clicks in any
    order, refused or granted microphone, ticks, audio, events delivered
    late), no handler of the recorder throws: in particular [stopRecording]
    never calls [stop()] on a recorder that is not recording. *)
Theorem no_handler_throws (mime : string) (evs : list event) :
  exists w tr,
    run evs (initial mime) = (Fulfilled tt, w, tr) /\
    uncaught tr = [] /\
    recorder_ready w.
Proof.
  destruct (run_safe evs (initial mime)) as (w & tr & Hrun & Hready & Hq).
  - intros H. discriminate H.
  - now exists w, tr.
Qed.

End RecorderRunsFacts.

(** ** The visualizer *)

Module VisualizerFacts.
Import Js Visualizer.

Lemma remove_single (id : nat) : remove Nat.eq_dec id [id] = [].
Proof. cbn. destruct (Nat.eq_dec id id); [reflexivity | congruence]. Qed.

Lemma cleanup_tidy (s : State) :
  tidy s ->
  let s' := snd (fst (run_held_cleanup s)) in
  open_contexts s' = [] /\ frames s' = [] /\
  next_frame s' = next_frame s /\ canvas s' = canvas s /\ deps s' = deps s /\
  context2d s' = context2d s.
Proof.
  destruct s as [dp cl ar cv c2 oc nc fr nf]. unfold tidy. cbn.
  intros [Hnf H]. destruct cl as [r|].
  - destruct H as (Hdp & Hcv & -> & H). destruct c2.
    + destruct H as (id & Hid & -> & ->).
      destruct id as [|n]; [congruence|].
      cbn. rewrite Nat.eqb_refl. cbn.
      destruct (Nat.eq_dec (context r) (context r)); [|congruence].
      now repeat split.
    + subst fr. destruct ar as [[|n]|]; cbn;
        (destruct (Nat.eq_dec (context r) (context r)); [|congruence]);
        now repeat split.
  - destruct H as [-> ->]. cbn. now repeat split.
Qed.

Lemma effect_tidy (p : Props) (s : State) :
  open_contexts s = [] -> frames s = [] -> next_frame s <> 0 ->
  deps s <> None ->
  tidy (snd (fst (run_effect p s))).
Proof.
  destruct s as [dp cl ar cv c2 oc nc fr nf]. cbn. intros -> -> Hnf Hdp.
  unfold run_effect, vbind, read. cbn.
  destruct (stream_prop p) as [st|]; [|unfold tidy; cbn; now repeat split].
  destruct cv; [|unfold tidy; cbn; now repeat split].
  unfold draw, vbind, read. cbn.
  destruct c2; [|unfold tidy; cbn; split; [assumption|]; now repeat split].
  cbn. destruct (isRecording_prop p); unfold tidy; cbn;
    (split; [lia|]); repeat split; try assumption;
    exists nf; now repeat split.
Qed.

(** What one animation frame does and leaves. *)
Lemma frame_step (s : State) :
  tidy s ->
  snd (step FrameDue s) = frame_trace s /\
  cleanup (snd (fst (step FrameDue s))) = cleanup s /\
  deps (snd (fst (step FrameDue s))) = deps s /\
  canvas (snd (fst (step FrameDue s))) = canvas s /\
  context2d (snd (fst (step FrameDue s))) = context2d s /\
  open_contexts (snd (fst (step FrameDue s))) = open_contexts s /\
  tidy (snd (fst (step FrameDue s))).
Proof.
  destruct s as [dp cl ar cv c2 oc nc fr nf]. unfold tidy, frame_trace. cbn.
  intros [Hnf Ht]. destruct cl as [r|].
  - destruct Ht as (Hdp & -> & -> & Ht). destruct c2.
    + destruct Ht as (id & Hid & -> & ->).
      unfold step, run_frames, draw, vbind, read, request_frame, say, vret.
      cbn. destruct (recording_seen r); cbn; repeat split; try assumption;
        try lia; exists nf; now repeat split.
    + subst fr. cbn. now repeat split.
  - destruct Ht as [-> ->]. cbn. now repeat split.
Qed.

Lemma step_rendered (p : Props) (s : State) :
  snd (fst (step (Rendered p) s)) =
  match deps s with
  | Some old =>
      if same_deps old p then s
      else snd (fst (run_effect p
                       (with_deps (Some p) (snd (fst (run_held_cleanup s))))))
  | None =>
      snd (fst (run_effect p (with_deps (Some p) (with_canvas true s))))
  end.
Proof.
  unfold step, vbind at 1, read. cbn [fst snd].
  destruct (deps s) as [old|].
  - destruct (same_deps old p); [reflexivity|].
    unfold vbind at 1.
    destruct (run_held_cleanup s) as [[[] s1] l1]. cbn [fst snd].
    unfold vbind at 1. cbn [fst snd].
    destruct (run_effect p (with_deps (Some p) s1)) as [[[] s2] l2].
    reflexivity.
  - unfold vbind at 1. cbn [fst snd].
    destruct (run_effect p (with_deps (Some p) (with_canvas true s)))
      as [[[] s2] l2].
    reflexivity.
Qed.

Lemma step_unmounted (s : State) :
  snd (fst (step Unmounted s)) =
  with_cleanup None (with_canvas false (snd (fst (run_held_cleanup s)))).
Proof.
  unfold step, vbind at 1, read. cbn [fst snd]. unfold vbind at 1.
  destruct (run_held_cleanup s) as [[[] s1] l1]. reflexivity.
Qed.

Lemma step_tidy (ev : vis_event) (s : State) :
  tidy s -> tidy (snd (fst (step ev s))).
Proof.
  intros Ht. destruct ev as [p| |].
  - rewrite step_rendered.
    pose proof (cleanup_tidy s Ht) as (Ho & Hf & Hn & _).
    destruct (deps s) as [old|] eqn:Hd.
    + destruct (same_deps old p); [exact Ht|].
      apply effect_tidy;
        destruct (snd (fst (run_held_cleanup s))); cbn in *;
        try assumption; try discriminate.
      rewrite Hn. apply Ht.
    + destruct s as [dp cl ar cv c2 oc nc fr nf]. unfold tidy in Ht.
      cbn in Ht, Hd. subst dp. destruct Ht as [Hnf Ht].
      destruct cl as [r|].
      * destruct Ht as (Hdp & _). congruence.
      * destruct Ht as [-> ->]. apply effect_tidy; cbn; auto; discriminate.
  - now apply frame_step.
  - rewrite step_unmounted.
    pose proof (cleanup_tidy s Ht) as (Ho & Hf & Hn & _).
    destruct (snd (fst (run_held_cleanup s))). unfold tidy. cbn in *.
    rewrite Hn. split; [apply Ht|]. now split.
Qed.

Lemma steps_tidy (evs : list vis_event) : forall s,
  tidy s -> tidy (snd (fst (steps evs s))).
Proof.
  induction evs as [|ev evs IH]; intros s Ht; [exact Ht|].
  cbn [steps]. unfold vbind.
  pose proof (step_tidy ev s Ht) as H1.
  destruct (step ev s) as [[[] s1] l1]. cbn [fst snd] in *.
  pose proof (IH s1 H1) as H2.
  destruct (steps evs s1) as [[[] s2] l2]. exact H2.
Qed.

Lemma steps_app (a b : list vis_event) (s : State) :
  snd (fst (steps (a ++ b) s)) = snd (fst (steps b (snd (fst (steps a s))))).
Proof.
  revert s. induction a as [|ev a IH]; intros s; [reflexivity|].
  cbn [app steps]. unfold vbind.
  destruct (step ev s) as [[[] s1] l1]. cbn [fst snd].
  specialize (IH s1).
  destruct (steps (a ++ b) s1) as [[[] s2] l2].
  destruct (steps a s1) as [[[] s3] l3]. cbn [fst snd] in *. exact IH.
Qed.

Lemma steps_cons (ev : vis_event) (evs : list vis_event) (s : State) :
  snd (fst (steps (ev :: evs) s)) = snd (fst (steps evs (snd (fst (step ev s))))).
Proof.
  cbn [steps]. unfold vbind.
  destruct (step ev s) as [[[] s1] l1]. cbn [fst snd].
  destruct (steps evs s1) as [[[] s2] l2]. reflexivity.
Qed.

Lemma tidy_unmounted (g : bool) : tidy (unmounted g).
Proof. unfold tidy. cbn. now repeat split. Qed.

(** X18: whatever renders, frames and unmount come in whatever order, the
    visualizer holds at most one open audio context and at most one waiting
    animation frame at any time; once it is unmounted none is left: every
    context it opened is closed and its draw loop has stopped. *)
Theorem visualizer_leaks_nothing (g : bool) (evs : list vis_event) :
  length (open_contexts (snd (fst (steps evs (unmounted g))))) <= 1 /\
  length (frames (snd (fst (steps evs (unmounted g))))) <= 1 /\
  open_contexts (snd (fst (steps (evs ++ [Unmounted]) (unmounted g)))) = [] /\
  frames (snd (fst (steps (evs ++ [Unmounted]) (unmounted g)))) = [].
Proof.
  pose proof (steps_tidy evs (unmounted g) (tidy_unmounted g)) as Ht.
  split; [|split].
  - destruct Ht as [_ Ht].
    destruct (cleanup (snd (fst (steps evs (unmounted g))))).
    + destruct Ht as (_ & _ & -> & _). cbn. lia.
    + destruct Ht as [-> _]. cbn. lia.
  - destruct Ht as [_ Ht].
    destruct (cleanup (snd (fst (steps evs (unmounted g))))).
    + destruct Ht as (_ & _ & _ & Ht).
      destruct (context2d (snd (fst (steps evs (unmounted g))))).
      * destruct Ht as (id & _ & _ & ->). cbn. lia.
      * rewrite Ht. cbn. lia.
    + destruct Ht as [_ ->]. cbn. lia.
  - rewrite steps_app, steps_cons. cbn [steps]. unfold vret. cbn [fst snd].
    rewrite step_unmounted.
    pose proof (cleanup_tidy _ Ht) as (Ho & Hf & _).
    destruct (snd (fst (run_held_cleanup (snd (fst (steps evs (unmounted g))))))).
    cbn in *. now split.
Qed.

Lemma cleanup_context2d (s : State) :
  context2d (snd (fst (run_held_cleanup s))) = context2d s.
Proof.
  destruct s as [dp cl ar cv c2 oc nc fr nf].
  unfold run_held_cleanup, run_cleanup, vbind, read. cbn.
  destruct cl as [r|]; [|reflexivity].
  destruct ar as [[|n]|]; reflexivity.
Qed.

Lemma effect_context2d (p : Props) (s : State) :
  context2d (snd (fst (run_effect p s))) = context2d s.
Proof.
  destruct s as [dp cl ar cv c2 oc nc fr nf].
  unfold run_effect, vbind, read. cbn.
  destruct (stream_prop p); [|reflexivity].
  destruct cv; [|reflexivity].
  unfold draw, vbind, read. cbn.
  destruct c2; [|reflexivity].
  cbn. destruct (isRecording_prop p); reflexivity.
Qed.

Lemma effect_deps (p : Props) (s : State) :
  deps (snd (fst (run_effect p s))) = deps s.
Proof.
  destruct s as [dp cl ar cv c2 oc nc fr nf].
  unfold run_effect, vbind, read. cbn.
  destruct (stream_prop p); [|reflexivity].
  destruct cv; [|reflexivity].
  unfold draw, vbind, read. cbn.
  destruct c2; [|reflexivity].
  cbn. destruct (isRecording_prop p); reflexivity.
Qed.

Lemma step_context2d (ev : vis_event) (s : State) :
  tidy s -> context2d (snd (fst (step ev s))) = context2d s.
Proof.
  intros Ht. destruct ev as [p| |].
  - rewrite step_rendered. destruct (deps s) as [old|].
    + destruct (same_deps old p); [reflexivity|].
      rewrite effect_context2d.
      pose proof (cleanup_context2d s) as H.
      now destruct (snd (fst (run_held_cleanup s))).
    + rewrite effect_context2d. now destruct s.
  - now apply frame_step.
  - rewrite step_unmounted. pose proof (cleanup_context2d s) as H.
    now destruct (snd (fst (run_held_cleanup s))).
Qed.

Lemma steps_context2d (evs : list vis_event) : forall s,
  tidy s -> context2d (snd (fst (steps evs s))) = context2d s.
Proof.
  induction evs as [|ev evs IH]; intros s Ht; [reflexivity|].
  rewrite steps_cons, IH by now apply step_tidy.
  now apply step_context2d.
Qed.

(** The effect run for [p] on a mounted component. *)
Lemma effect_sync (p : Props) (s : State) :
  deps s = Some p -> canvas s = true ->
  in_sync (snd (fst (run_effect p s))).
Proof.
  destruct s as [dp cl ar cv c2 oc nc fr nf]. cbn. intros -> ->.
  unfold run_effect, vbind, read, in_sync. cbn.
  destruct (stream_prop p) as [st|] eqn:Hst; [|cbn; rewrite Hst; now split].
  unfold draw, vbind, read. cbn.
  destruct c2; cbn.
  - destruct (isRecording_prop p) eqn:E; cbn; rewrite Hst;
      (split; [reflexivity|]); eexists; split; try reflexivity; cbn;
      now rewrite E.
  - rewrite Hst. split; [reflexivity|]. eexists. split; reflexivity.
Qed.

Lemma same_deps_props (a b : Props) :
  same_deps a b = true ->
  isRecording_prop a = isRecording_prop b /\
  (stream_prop a = None <-> stream_prop b = None).
Proof.
  unfold same_deps, same_stream. intros H. apply andb_prop in H.
  destruct H as [Hs Hr]. apply Bool.eqb_prop in Hr. split; [exact Hr|].
  destruct (stream_prop a), (stream_prop b); try discriminate;
    split; intros; congruence.
Qed.

(** A render on a mounted component leaves the effect of props that agree
    with the rendered ones on [isRecording] and on having a stream. *)
Lemma rendered_sync (p : Props) (s : State) :
  tidy s -> in_sync s ->
  in_sync (snd (fst (step (Rendered p) s))) /\
  exists p', deps (snd (fst (step (Rendered p) s))) = Some p' /\
             isRecording_prop p' = isRecording_prop p /\
             (stream_prop p' = None <-> stream_prop p = None).
Proof.
  intros Ht Hs. rewrite step_rendered.
  destruct (deps s) as [old|] eqn:Hd.
  - destruct (same_deps old p) eqn:Hsame.
    + split; [exact Hs|]. exists old. split; [exact Hd|].
      now apply same_deps_props.
    + pose proof (cleanup_tidy s Ht) as (_ & _ & _ & Hcv & _).
      assert (Hc : canvas s = true).
      { unfold in_sync in Hs. rewrite Hd in Hs. apply Hs. }
      split.
      * apply effect_sync;
          destruct (snd (fst (run_held_cleanup s))); cbn in *; congruence.
      * exists p. rewrite effect_deps. split; [|now split].
        now destruct (snd (fst (run_held_cleanup s))).
  - split.
    + apply effect_sync; now destruct s.
    + exists p. rewrite effect_deps. split; [|now split]. now destruct s.
Qed.

Lemma frame_sync (s : State) :
  tidy s -> in_sync s -> in_sync (snd (fst (step FrameDue s))).
Proof.
  intros Ht Hs. destruct (frame_step s Ht) as (_ & Hc & Hd & Hcv & _).
  unfold in_sync in *. now rewrite Hc, Hd, Hcv.
Qed.

Lemma steps_sync (evs : list vis_event) : forall s,
  ~ In Unmounted evs -> tidy s -> in_sync s ->
  in_sync (snd (fst (steps evs s))).
Proof.
  induction evs as [|ev evs IH]; intros s Hu Ht Hs; [exact Hs|].
  rewrite steps_cons. apply IH.
  - intros H. apply Hu. now right.
  - now apply step_tidy.
  - destruct ev as [p| |].
    + now apply rendered_sync.
    + now apply frame_sync.
    + exfalso. apply Hu. now left.
Qed.

Lemma frames_sync (k : nat) : forall s,
  tidy s -> in_sync s ->
  let s' := snd (fst (steps (repeat FrameDue k) s)) in
  tidy s' /\ in_sync s' /\ deps s' = deps s.
Proof.
  induction k as [|k IH]; intros s Ht Hs.
  - cbn [repeat steps]. unfold vret. cbn [fst snd].
    split; [exact Ht|]. split; [exact Hs | reflexivity].
  - cbn [repeat]. cbv zeta. rewrite steps_cons.
    destruct (IH (snd (fst (step FrameDue s)))) as (H1 & H2 & H3).
    + now apply step_tidy.
    + now apply frame_sync.
    + split; [exact H1|]. split; [exact H2|].
      rewrite H3. now apply frame_step.
Qed.

(** X19: while the component is mounted, the frame that runs after a
    render does what the props of that render ask for.  Without a stream no
    frame is waiting and none runs.  With a stream, where the canvas gives a
    2d context, the frame asks for the next frame and then, with
    [isRecording] false, only clears the canvas, and with [isRecording]
    true reads the analyser of the one open audio context and paints; where
    the canvas gives no context the frame does nothing. *)
Theorem frame_follows_isRecording (g : bool) (evs : list vis_event)
  (p : Props) (k : nat) :
  ~ In Unmounted evs ->
  let s := snd (fst (steps (evs ++ Rendered p :: repeat FrameDue k)
                       (unmounted g))) in
  match stream_prop p with
  | Some _ =>
      exists ctx,
        open_contexts s = [ctx] /\
        snd (step FrameDue s) =
          if g
          then RequestAnimationFrame (next_frame s) ::
                 if isRecording_prop p
                 then [GetByteFrequencyData ctx; Paint]
                 else [ClearRect]
          else []
  | None => frames s = [] /\ snd (step FrameDue s) = []
  end.
Proof.
  intros Hu. cbv zeta.
  rewrite steps_app, steps_cons.
  pose proof (steps_tidy evs (unmounted g) (tidy_unmounted g)) as Ht.
  assert (Hs : in_sync (snd (fst (steps evs (unmounted g))))).
  { apply steps_sync; [assumption | apply tidy_unmounted | reflexivity]. }
  assert (Hg : context2d (snd (fst (steps evs (unmounted g)))) = g).
  { now rewrite steps_context2d by apply tidy_unmounted. }
  set (s0 := snd (fst (steps evs (unmounted g)))) in *.
  destruct (rendered_sync p s0 Ht Hs) as [Hs1 (p' & Hd1 & Hrec & Hstream)].
  pose proof (step_tidy (Rendered p) s0 Ht) as Ht1.
  pose proof (step_context2d (Rendered p) s0 Ht) as Hg1.
  set (s1 := snd (fst (step (Rendered p) s0))) in *.
  destruct (frames_sync k s1 Ht1 Hs1) as (Ht2 & Hs2 & Hd2).
  pose proof (steps_context2d (repeat FrameDue k) s1 Ht1) as Hg2.
  set (s2 := snd (fst (steps (repeat FrameDue k) s1))) in *.
  destruct (frame_step s2 Ht2) as (Htr & _).
  rewrite Htr. unfold frame_trace.
  unfold in_sync in Hs2. rewrite Hd2, Hd1 in Hs2. destruct Hs2 as [_ Hs2].
  destruct Ht2 as [_ Ht2].
  destruct (stream_prop p) as [st|].
  - destruct (stream_prop p') as [st'|];
      [|exfalso; assert (H : @None Recorder.MediaStream = None) by reflexivity;
        apply Hstream in H; discriminate H].
    destruct Hs2 as (r & Hc & Hr). rewrite Hc in Ht2 |- *.
    destruct Ht2 as (_ & _ & Ho & _).
    exists (context r). split; [exact Ho|].
    rewrite Hg2, Hg1, Hg, Hr, Hrec. reflexivity.
  - destruct (stream_prop p') as [st'|];
      [assert (H : @None Recorder.MediaStream = None) by reflexivity;
       apply Hstream in H; discriminate H|].
    rewrite Hs2 in Ht2 |- *. destruct Ht2 as [_ Hf]. now split.
Qed.

Lemma frame_follows_isRecording_witness :
  (exists ctx,
     snd (step FrameDue
            (snd (fst (steps
                         [Rendered {| stream_prop := None;
                                      isRecording_prop := false |};
                          Rendered {| stream_prop :=
                                        Some {| Recorder.getTracks := [1] |};
                                      isRecording_prop := false |};
                          FrameDue;
                          Rendered {| stream_prop :=
                                        Some {| Recorder.getTracks := [1] |};
                                      isRecording_prop := true |};
                          FrameDue; FrameDue]
                         (unmounted true))))) =
       [RequestAnimationFrame 6; GetByteFrequencyData ctx; Paint]) /\
  snd (step FrameDue
         (snd (fst (steps
                      [Rendered {| stream_prop :=
                                     Some {| Recorder.getTracks := [1] |};
                                   isRecording_prop := true |}]
                      (unmounted false))))) = [].
Proof.
  split.
  - destruct (frame_follows_isRecording true
                [Rendered {| stream_prop := None; isRecording_prop := false |};
                 Rendered {| stream_prop :=
                               Some {| Recorder.getTracks := [1] |};
                             isRecording_prop := false |};
                 FrameDue]
                {| stream_prop := Some {| Recorder.getTracks := [1] |};
                   isRecording_prop := true |} 2)
      as (ctx & _ & H).
    + intros [H|[H|[H|[]]]]; discriminate H.
    + exists ctx. exact H.
  - destruct (frame_follows_isRecording false []
                {| stream_prop := Some {| Recorder.getTracks := [1] |};
                   isRecording_prop := true |} 0)
      as (ctx & _ & H).
    + intros [].
    + exact H.
Defined.

End VisualizerFacts.

(** ** The static file server *)

Module ServerFacts.
Import Js Server.

Lemma indexOf_none (s : string) : no_query s = true -> indexOf "?" s = None.
Proof.
  induction s as [|c s IH]; [reflexivity|]. cbn [no_query string_forallb].
  intros H. apply andb_prop in H. destruct H as [Hc Hs].
  apply negb_true_iff in Hc. cbn [indexOf]. rewrite Hc.
  unfold no_query in IH. now rewrite IH.
Qed.

Lemma indexOf_query (p q : string) :
  no_query p = true ->
  indexOf "?" (p ++ String "?" q) = Some (String.length p) /\
  prefix_of (String.length p) (p ++ String "?" q) = p.
Proof.
  induction p as [|c p IH]; [split; reflexivity|].
  cbn [no_query string_forallb]. intros H.
  apply andb_prop in H. destruct H as [Hc Hp].
  apply negb_true_iff in Hc.
  destruct (IH Hp) as [Hi Ht].
  cbn [append indexOf String.length prefix_of]. rewrite Hc, Hi, Ht.
  split; reflexivity.
Qed.

Lemma dot_slash (u : string) : String.eqb ("." ++ u) "./" = String.eqb u "/".
Proof. reflexivity. Qed.

(** The file looked up: the index page for the bare root, otherwise the
    URL as it is after a dot. *)
Lemma filePath_plain (u : string) :
  no_query u = true -> u <> "/" -> filePath u = ("." ++ u)%string.
Proof.
  intros Hq Hne. unfold filePath. rewrite dot_slash.
  destruct (String.eqb_spec u "/") as [->|_]; [congruence|].
  now rewrite indexOf_none.
Qed.

Lemma filePath_query (u q : string) :
  no_query u = true -> filePath (u ++ String "?" q) = ("." ++ u)%string.
Proof.
  intros Hq. unfold filePath. rewrite dot_slash.
  assert (Hne : String.eqb (u ++ String "?" q) "/" = false).
  { apply String.eqb_neq. intros H.
    destruct u as [|c u]; [discriminate|].
    cbn in H. injection H as -> H. destruct u; discriminate. }
  rewrite Hne.
  destruct (indexOf_query ("." ++ u) q Hq) as [Hi Ht].
  change (("." ++ u) ++ String "?" q)%string
    with ("." ++ (u ++ String "?" q))%string in Hi, Ht.
  now rewrite Hi, Ht.
Qed.

(** X14: every request gets exactly one response, the last thing the
    listener does; its status is 200 or 500, never 404 or any other, and at
    most two files are read. *)
Theorem one_response_200_or_500 (extname : string -> string)
  (fs : FileSystem) (now : string) (req : Request) :
  exists pre status ct body,
    listener extname fs now req = pre ++ [WriteHead status ct; End_ body] /\
    responses (listener extname fs now req) = [(status, ct, body)] /\
    (status = 200 \/ status = 500) /\
    (forall a, In a pre -> forall s c b, a <> WriteHead s c /\ a <> End_ b) /\
    length (reads (listener extname fs now req)) <= 2.
Proof.
  unfold listener, serve.
  destruct (fs (filePath (url req))) as [content|code].
  - eexists [_; _]. eexists. eexists. eexists.
    split; [reflexivity|]. split; [reflexivity|]. split; [now left|].
    split; [|cbn; lia].
    intros a [<-|[<-|[]]]; intros; split; discriminate.
  - destruct (String.eqb code "ENOENT").
    + destruct (fs "./index.html") as [content|code'].
      * eexists [_; _; _]. eexists. eexists. eexists.
        split; [reflexivity|]. split; [reflexivity|]. split; [now left|].
        split; [|cbn; lia].
        intros a [<-|[<-|[<-|[]]]]; intros; split; discriminate.
      * eexists [_; _; _; _]. eexists. eexists. eexists.
        split; [reflexivity|]. split; [reflexivity|]. split; [now right|].
        split; [|cbn; lia].
        intros a [<-|[<-|[<-|[<-|[]]]]]; intros; split; discriminate.
    + eexists [_; _; _]. eexists. eexists. eexists.
      split; [reflexivity|]. split; [reflexivity|]. split; [now right|].
      split; [|cbn; lia].
      intros a [<-|[<-|[<-|[]]]]; intros; split; discriminate.
Qed.

Lemma one_response_200_or_500_witness :
  responses
    (listener (fun _ => ".css") (fun _ => ReadFailed "EACCES")
       "t" {| method := "GET"; url := "/style.css" |})
  = [(500, None, "Server Error: EACCES")].
Proof.
  destruct (one_response_200_or_500 (fun _ => ".css")
              (fun _ => ReadFailed "EACCES")
              "t" {| method := "GET"; url := "/style.css" |})
    as (pre & status & ct & body & _ & H & _).
  rewrite H. vm_compute in H. injection H as <- <- <-. reflexivity.
Defined.

(** X15: a request for a file that does not exist is answered with the
    index page, status 200 and type [text/html], whatever the extension
    asked for; only when the index page cannot be read either is it a 500. *)
Theorem missing_file_gets_index (extname : string -> string)
  (fs : FileSystem) (now : string) (req : Request) :
  fs (filePath (url req)) = ReadFailed "ENOENT" ->
  reads (listener extname fs now req)
    = [filePath (url req); "./index.html"] /\
  responses (listener extname fs now req) =
    match fs "./index.html" with
    | Content page => [(200, Some "text/html", page)]
    | ReadFailed _ => [(500, None, "Error loading index.html")]
    end.
Proof.
  intros Hmiss. unfold listener, serve. rewrite Hmiss. cbn [String.eqb].
  change (String.eqb "ENOENT" "ENOENT") with true. cbv iota.
  destruct (fs "./index.html"); split; reflexivity.
Qed.

Lemma missing_file_gets_index_witness :
  responses
    (listener (fun _ => ".png")
       (fun p => if String.eqb p "./index.html" then Content "<html>"
                 else ReadFailed "ENOENT")
       "2024" {| method := "GET"; url := "/logo.png" |})
  = [(200, Some "text/html", "<html>")].
Proof.
  destruct (missing_file_gets_index (fun _ => ".png")
              (fun p => if String.eqb p "./index.html" then Content "<html>"
                        else ReadFailed "ENOENT")
              "2024" {| method := "GET"; url := "/logo.png" |} eq_refl)
    as [_ H].
  exact H.
Defined.

(** X16: neither the method, nor the time, nor anything after the first
    question mark of the URL matters: two requests whose URLs agree up to
    there, and are not the bare root, read the same files and get the same
    response. *)
Theorem query_and_method_ignored (extname : string -> string)
  (fs : FileSystem) (now1 now2 : string) (m1 m2 u q : string) :
  no_query u = true -> u <> "/" ->
  reads (listener extname fs now1 {| method := m1; url := u ++ String "?" q |})
    = reads (listener extname fs now2 {| method := m2; url := u |}) /\
  responses
    (listener extname fs now1 {| method := m1; url := u ++ String "?" q |})
    = responses (listener extname fs now2 {| method := m2; url := u |}) /\
  reads (listener extname fs now2 {| method := m2; url := u |})
    = ("." ++ u)%string ::
      match fs ("." ++ u)%string with
      | ReadFailed code =>
          if String.eqb code "ENOENT" then ["./index.html"] else []
      | Content _ => []
      end.
Proof.
  intros Hq Hne. unfold listener. cbn [url reads responses].
  rewrite (filePath_query u q Hq), (filePath_plain u Hq Hne).
  repeat split.
  unfold serve. destruct (fs ("." ++ u)%string) as [content|code];
    [reflexivity|].
  destruct (String.eqb code "ENOENT"); [|reflexivity].
  destruct (fs "./index.html"); reflexivity.
Qed.

Lemma query_and_method_ignored_witness :
  responses
    (listener (fun _ => ".js") (fun _ => Content "x")
       "t1" {| method := "POST"; url := "/app.js?v=2" |})
  = responses
      (listener (fun _ => ".js") (fun _ => Content "x")
         "t2" {| method := "GET"; url := "/app.js" |}).
Proof.
  destruct (query_and_method_ignored (fun _ => ".js") (fun _ => Content "x")
              "t1" "t2" "POST" "GET" "/app.js" "v=2" eq_refl)
    as (_ & H & _).
  - discriminate.
  - exact H.
Defined.

(** X17: the index page is put in for the root before the query string is
    cut off, so the root with a query string is not the index page: the
    file looked up is [./], the directory, and the error of that read (any
    but ENOENT) is answered with status 500 and its code; the bare root
    looks up [./index.html]. *)
Theorem root_with_query_reads_directory (extname : string -> string)
  (fs : FileSystem) (now : string) (m q code : string) :
  fs "./" = ReadFailed code ->
  String.eqb code "ENOENT" = false ->
  reads (listener extname fs now
           {| method := m; url := String "/" (String "?" q) |}) = ["./"] /\
  responses (listener extname fs now
               {| method := m; url := String "/" (String "?" q) |})
    = [(500, None, ("Server Error: " ++ code)%string)] /\
  hd_error (reads (listener extname fs now {| method := m; url := "/" |}))
    = Some "./index.html".
Proof.
  intros Hdir Hcode. unfold listener. cbn [url].
  change (String "/" (String "?" q)) with ("/" ++ String "?" q)%string.
  rewrite (filePath_query "/" q eq_refl).
  change ("." ++ "/")%string with "./".
  unfold serve. rewrite Hdir, Hcode. repeat split.
Qed.

Lemma root_with_query_reads_directory_witness :
  responses
    (listener (fun _ => EmptyString)
       (fun p => if String.eqb p "./" then ReadFailed "EISDIR"
                 else Content "<html>")
       "t" {| method := "GET"; url := "/?utm_source=mail" |})
  = [(500, None, "Server Error: EISDIR")].
Proof.
  destruct (root_with_query_reads_directory (fun _ => EmptyString)
              (fun p => if String.eqb p "./" then ReadFailed "EISDIR"
                        else Content "<html>")
              "t" "GET" "utm_source=mail" "EISDIR" eq_refl eq_refl)
    as (_ & H & _).
  exact H.
Defined.

End ServerFacts.
